(** * datarails-demo: the mock ingestion back end

    A shallow embedding of the mock data layer of the front end
    ([frontend/src/mocks]: the job store, the simulated job progression, the
    employee generator and the employee listing of [mockData.ts]) and of the
    MSW request handlers of [handlers.ts], followed by the properties the
    specification states about them.

    Conventions of the embedding:
    - the module state (the two exported stores and the live timers) is a
      record that every operation takes and returns;
    - what the code reads from its environment ([crypto.randomUUID()],
      [new Date()], [Math.random()]) is an argument of the operation that
      reads it; an upload is given an identifier that is not in use;
    - a timer callback is an event; the scheduler may fire the interval of a
      step any number of times before the timeout of the step;
    - strings are sequences of bytes; what the host does with the letters of
      a string ([toLowerCase], [localeCompare]) is an operation of the host;
    - integers are in [Z]; the doubles of the progression are in [Q] with
      abstract rounded operations; [Math.round(salary * 0.92)] and the tenure
      quotient are computed exactly, which agrees with the doubles on the
      values the generator produces;
    - of the legacy [server.ts], which no module imports, only [parseUrl] is
      modelled; the client code that consumes the mock (polling, progress,
      timeline, retry policy, validation, formatting, log sanitising) follows
      the mock. *)

From Stdlib Require Import ZArith QArith Qround Qminmax String Ascii List Lia.
From Stdlib Require Import Sorting.Sorted Sorting.Permutation.
From Stdlib Require Import DecimalString DecimalNat OrderedTypeEx.
From stdpp Require Import gmap strings list.

Set Warnings "-register-all".
Local Open Scope string_scope.
Local Open Scope Z_scope.

(** ** The JavaScript runtime

    The operations of the host the code relies on but does not define.
    Numbers that can be fractional are doubles; they are embedded in [Q] and
    the two rounded operations the progression uses are kept abstract.  Dates
    are epoch milliseconds. *)

Class JsRuntime := {
  (** [x + y] on doubles *)
  num_add : Q -> Q -> Q;
  (** [x / y] on doubles *)
  num_div : Q -> Q -> Q;
  (** [new Date(ms).toISOString()] *)
  toISOString : Z -> string;
  (** [new Date(year, monthIndex, day).getTime()] in the local time zone *)
  Date_local : Z -> Z -> Z -> Z;
  (** [a.localeCompare(b)] *)
  localeCompare : string -> string -> Z;
  (** [s.toLowerCase()] *)
  toLowerCase : string -> string;
}.

(** ** Job records ([job.types.ts], [mockData.ts]) *)

Inductive JobStatus := pending | processing | completed | failed.

#[export] Instance JobStatus_eq_dec : EqDecision JobStatus.
Proof. solve_decision. Defined.

Definition JobStatus_str (s : JobStatus) : string :=
  match s with
  | pending => "pending"
  | processing => "processing"
  | completed => "completed"
  | failed => "failed"
  end.

Record JobError := { row : Z; field : string; message : string }.

Record MockJob := {
  job_id : string;
  filename : string;
  file_size : Z;
  status : JobStatus;
  current_step : string;
  started_at : string;
  completed_at : option string;
  processed_rows : Z;
  employee_count : Z;
}.

(** The object literal [getMockJobStatus] returns. *)
Record JobSnapshot := {
  r_job_id : string;
  r_filename : string;
  r_status : JobStatus;
  r_current_step : string;
  r_total_rows : Z;
  r_processed_rows : Z;
  r_error_rows : Z;
  r_errors : list JobError;
  r_started_at : string;
  r_completed_at : option string;
}.

(** The double-quote character (code 34) and a quoted string. *)
Definition dquote : string :=
  String (Ascii false true false false false true false false) EmptyString.

Definition quoted (s : string) : string := dquote ++ s ++ dquote.

Definition MOCK_JOB_ERRORS : list JobError := [
  {| row := 15; field := "salary";
     message := "Invalid numeric value: expected number, got " ++ quoted "fifty" |};
  {| row := 142; field := "department_code";
     message := "Invalid department code: " ++ quoted "fin" ++ " (expected uppercase)" |};
  {| row := 156; field := "employee_id";
     message := "Missing required field: employee_id" |};
  {| row := 223; field := "department_code";
     message := "Invalid department code: " ++ quoted "ops" ++ " (expected uppercase)" |};
  {| row := 259; field := "name";
     message := "Name contains extra whitespace: " ++ quoted "  Richard Allen  " |};
  {| row := 329; field := "department_code";
     message := "Department code contains extra whitespace: " ++ quoted "  HR  " |};
  {| row := 468; field := "department_code";
     message := "Invalid department code: " ++ quoted "hr" ++ " (expected uppercase)" |};
  {| row := 512; field := "hire_date";
     message := "Invalid date format: expected YYYY-MM-DD" |}
].

(** ** Employees ([employee.types.ts]) *)

Record Employee := {
  id : string;
  created_at : string;
  updated_at : string;
  employee_id : string;
  name : string;
  department_code : string;
  salary : Z;
  hire_date : string;
  department_name : string;
  annual_salary_eur : Z;
  tenure_years : Z;
}.

(** ** The simulated progression: closures and timers

    [simulateJobProgress] allocates one closure per call: the counter
    [currentStep], at most one live [setInterval] (with its own
    [currentRows]) and at most one pending [setTimeout]. *)

Record Interval := {
  endRows : Q;
  rowsPerUpdate : Q;
  currentRows : Q;
}.

Record Sim := {
  currentStep : nat;
  progressInterval : option Interval;
  timeout_pending : bool;
}.

Record StepDef := { step_name : string; duration : Z; rows : Z }.

Definition steps : list StepDef := [
  {| step_name := "pending"; duration := 1000; rows := 0 |};
  {| step_name := "reading"; duration := 2000; rows := 100 |};
  {| step_name := "validating"; duration := 3000; rows := 300 |};
  {| step_name := "transforming"; duration := 4000; rows := 450 |};
  {| step_name := "persisting"; duration := 2000; rows := 500 |}
].

Definition total_rows : Z := 508.
Definition updateInterval : Z := 200.

(** The module state: the two exported stores and the live timers, keyed by
    the [job_id] their closure captured. *)
Record World := {
  MOCK_EMPLOYEES : list Employee;
  MOCK_JOBS : gmap string MockJob;
  timers : gmap string Sim;
}.

Definition set_jobs (w : World) (m : gmap string MockJob) : World :=
  {| MOCK_EMPLOYEES := MOCK_EMPLOYEES w; MOCK_JOBS := m; timers := timers w |}.

Definition set_timers (w : World) (t : gmap string Sim) : World :=
  {| MOCK_EMPLOYEES := MOCK_EMPLOYEES w; MOCK_JOBS := MOCK_JOBS w; timers := t |}.

Section Progression.
Context `{JsRuntime}.

(** [initializeSampleJobs], run once at module load ([now] is [Date.now()]). *)
Definition initializeSampleJobs (now : Z) (jobs : gmap string MockJob)
  : gmap string MockJob :=
  let completedJobId := "demo-completed-job-001" in
  let completedJob := {|
    job_id := completedJobId;
    filename := "employees_2024_q4.xlsx";
    file_size := 245760;
    status := completed;
    current_step := "completed";
    started_at := toISOString (now - 2 * 60 * 60 * 1000);
    completed_at := Some (toISOString (now - 2 * 60 * 60 * 1000 + 12000));
    processed_rows := 508;
    employee_count := 500 |} in
  let jobs := <[completedJobId := completedJob]> jobs in
  let oldJobId := "demo-completed-job-002" in
  let oldJob := {|
    job_id := oldJobId;
    filename := "january_payroll.xlsx";
    file_size := 189440;
    status := completed;
    current_step := "completed";
    started_at := toISOString (now - 24 * 60 * 60 * 1000);
    completed_at := Some (toISOString (now - 24 * 60 * 60 * 1000 + 12000));
    processed_rows := 508;
    employee_count := 500 |} in
  let jobs := <[oldJobId := oldJob]> jobs in
  let failedJobId := "demo-failed-job-001" in
  let failedJob := {|
    job_id := failedJobId;
    filename := "corrupted_data.xls";
    file_size := 98304;
    status := failed;
    current_step := "validating";
    started_at := toISOString (now - 60 * 60 * 1000);
    completed_at := Some (toISOString (now - 60 * 60 * 1000 + 3000));
    processed_rows := 150;
    employee_count := 0 |} in
  <[failedJobId := failedJob]> jobs.

(** [getMockJobStatus] *)
Definition getMockJobStatus (w : World) (job_id0 : string) : option JobSnapshot :=
  match MOCK_JOBS w !! job_id0 with
  | None => None
  | Some job =>
      let total_rows := 508 in
      let error_rows :=
        if decide (status job = completed)
        then Z.of_nat (length MOCK_JOB_ERRORS) else 0 in
      Some {|
        r_job_id := job_id job;
        r_filename := filename job;
        r_status := status job;
        r_current_step := current_step job;
        r_total_rows := total_rows;
        r_processed_rows := processed_rows job;
        r_error_rows := error_rows;
        r_errors := if decide (status job = completed) then MOCK_JOB_ERRORS else [];
        r_started_at := started_at job;
        r_completed_at := completed_at job |}
  end.

(** Field assignments on the shared job object. *)
Definition with_status (job : MockJob) (s : JobStatus) : MockJob :=
  {| job_id := job_id job; filename := filename job; file_size := file_size job;
     status := s; current_step := current_step job;
     started_at := started_at job; completed_at := completed_at job;
     processed_rows := processed_rows job; employee_count := employee_count job |}.

Definition with_current_step (job : MockJob) (s : string) : MockJob :=
  {| job_id := job_id job; filename := filename job; file_size := file_size job;
     status := status job; current_step := s;
     started_at := started_at job; completed_at := completed_at job;
     processed_rows := processed_rows job; employee_count := employee_count job |}.

Definition with_processed_rows (job : MockJob) (n : Z) : MockJob :=
  {| job_id := job_id job; filename := filename job; file_size := file_size job;
     status := status job; current_step := current_step job;
     started_at := started_at job; completed_at := completed_at job;
     processed_rows := n; employee_count := employee_count job |}.

Definition with_completed_at (job : MockJob) (s : option string) : MockJob :=
  {| job_id := job_id job; filename := filename job; file_size := file_size job;
     status := status job; current_step := current_step job;
     started_at := started_at job; completed_at := s;
     processed_rows := processed_rows job; employee_count := employee_count job |}.

Definition with_employee_count (job : MockJob) (n : Z) : MockJob :=
  {| job_id := job_id job; filename := filename job; file_size := file_size job;
     status := status job; current_step := current_step job;
     started_at := started_at job; completed_at := completed_at job;
     processed_rows := processed_rows job; employee_count := n |}.

Definition default_step : StepDef :=
  {| step_name := ""; duration := 0; rows := 0 |}.

(** The body of [processStep] for the closure [sim] of job [job_id0];
    [now] is the clock read by [new Date()] on completion. *)
Definition processStep (now : Z) (job_id0 : string) (sim : Sim) (w : World) : World :=
  match MOCK_JOBS w !! job_id0 with
  | None => set_timers w (<[job_id0 :=
              {| currentStep := currentStep sim;
                 progressInterval := progressInterval sim;
                 timeout_pending := false |}]> (timers w))
  | Some job =>
      let job :=
        if (currentStep sim =? 0)%nat then with_status job processing else job in
      if (currentStep sim <? length steps)%nat then
        let step := nth (currentStep sim) steps default_step in
        let job := with_current_step job (step_name step) in
        let startRows :=
          if (0 <? currentStep sim)%nat
          then rows (nth (currentStep sim - 1) steps default_step) else 0 in
        let endRows := rows step in
        let stepDuration := duration step in
        let rowsPerUpdate :=
          num_div (inject_Z (endRows - startRows))
                  (num_div (inject_Z stepDuration) (inject_Z updateInterval)) in
        let interval := {| endRows := inject_Z endRows;
                           rowsPerUpdate := rowsPerUpdate;
                           currentRows := inject_Z startRows |} in
        {| MOCK_EMPLOYEES := MOCK_EMPLOYEES w;
           MOCK_JOBS := <[job_id0 := job]> (MOCK_JOBS w);
           timers := <[job_id0 :=
             {| currentStep := S (currentStep sim);
                progressInterval := Some interval;
                timeout_pending := true |}]> (timers w) |}
      else
        let job := with_status job completed in
        let job := with_current_step job "completed" in
        let job := with_processed_rows job total_rows in
        let job := with_completed_at job (Some (toISOString now)) in
        let employeeCount := total_rows - Z.of_nat (length MOCK_JOB_ERRORS) in
        let job := with_employee_count job employeeCount in
        {| MOCK_EMPLOYEES := MOCK_EMPLOYEES w;
           MOCK_JOBS := <[job_id0 := job]> (MOCK_JOBS w);
           timers := <[job_id0 :=
             {| currentStep := currentStep sim;
                progressInterval := progressInterval sim;
                timeout_pending := false |}]> (timers w) |}
  end.

(** [clearInterval(progressInterval)] *)
Definition clearInterval (sim : Sim) : Sim :=
  {| currentStep := currentStep sim; progressInterval := None;
     timeout_pending := timeout_pending sim |}.

(** The pending [setTimeout] of a closure fires: the first one calls
    [processStep] directly (no interval is live yet), the later ones clear the
    interval of the step that ends and call [processStep]. *)
Definition fire_timeout (now : Z) (job_id0 : string) (w : World) : World :=
  match timers w !! job_id0 with
  | Some sim =>
      if timeout_pending sim
      then processStep now job_id0 (clearInterval sim) w
      else w
  | None => w
  end.

(** The [setInterval] callback of a closure fires. *)
Definition fire_tick (job_id0 : string) (w : World) : World :=
  match timers w !! job_id0 with
  | Some sim =>
      match progressInterval sim with
      | Some iv =>
          match MOCK_JOBS w !! job_id0 with
          | None => set_timers w (<[job_id0 := clearInterval sim]> (timers w))
          | Some job =>
              let currentRows' :=
                Qmin (num_add (currentRows iv) (rowsPerUpdate iv)) (endRows iv) in
              {| MOCK_EMPLOYEES := MOCK_EMPLOYEES w;
                 MOCK_JOBS :=
                   <[job_id0 := with_processed_rows job (Qfloor currentRows')]>
                     (MOCK_JOBS w);
                 timers := <[job_id0 :=
                   {| currentStep := currentStep sim;
                      progressInterval :=
                        Some {| endRows := endRows iv;
                                rowsPerUpdate := rowsPerUpdate iv;
                                currentRows := currentRows' |};
                      timeout_pending := timeout_pending sim |}]> (timers w) |}
          end
      | None => w
      end
  | None => w
  end.

(** [simulateJobProgress]: allocate the closure and schedule
    [setTimeout(processStep, 500)]. *)
Definition simulateJobProgress (job_id0 : string) (w : World) : World :=
  match MOCK_JOBS w !! job_id0 with
  | None => w
  | Some _ =>
      set_timers w (<[job_id0 :=
        {| currentStep := 0; progressInterval := None;
           timeout_pending := true |}]> (timers w))
  end.

(** [createMockJob]; [uuid] is the value of [crypto.randomUUID()] and [now]
    the clock read by [new Date()]. *)
Definition createMockJob (uuid : string) (now : Z)
    (filename0 : string) (fileSize : Z) (w : World) : string * World :=
  let job_id0 := uuid in
  let started_at0 := toISOString now in
  let w := set_jobs w (<[job_id0 := {|
    job_id := job_id0;
    filename := filename0;
    file_size := fileSize;
    status := pending;
    current_step := "pending";
    started_at := started_at0;
    completed_at := None;
    processed_rows := 0;
    employee_count := 0 |}]> (MOCK_JOBS w)) in
  let w := simulateJobProgress job_id0 w in
  (job_id0, w).

End Progression.

(** ** Strings and arrays of the host *)

(** [s.endsWith(suffix)] *)
Definition endsWith (s suffix : string) : bool :=
  let n := String.length s in
  let m := String.length suffix in
  if (m <=? n)%nat then String.eqb (substring (n - m) m s) suffix else false.

(** [s.includes(sub)] *)
Fixpoint includes (s sub : string) : bool :=
  String.prefix sub s ||
  match s with
  | EmptyString => false
  | String _ s' => includes s' sub
  end.

(** The letters A to Z lowered, the other characters kept: what
    [toLowerCase] does on a text of ASCII characters. *)
Definition lower_ascii (c : ascii) : ascii :=
  let n := nat_of_ascii c in
  if ((65 <=? n) && (n <=? 90))%nat then ascii_of_nat (n + 32) else c.

Fixpoint ascii_toLowerCase (s : string) : string :=
  match s with
  | EmptyString => EmptyString
  | String c s' => String (lower_ascii c) (ascii_toLowerCase s')
  end.

(** Whether every character of [s] is an ASCII character. *)
Fixpoint ascii_text (s : string) : bool :=
  match s with
  | EmptyString => true
  | String c s' => (nat_of_ascii c <? 128)%nat && ascii_text s'
  end.

(** [String(n)] for a non-negative integer. *)
Definition String_of_nat (n : nat) : string :=
  NilEmpty.string_of_uint (Nat.to_uint n).

Fixpoint replicate_char (n : nat) (c : ascii) : string :=
  match n with
  | O => EmptyString
  | S n' => String c (replicate_char n' c)
  end.

(** [s.padStart(targetLength, c)] for a one-character pad string. *)
Definition padStart (s : string) (targetLength : nat) (c : ascii) : string :=
  replicate_char (targetLength - String.length s) c ++ s.

(** [s.split(c)[0]]: the part of [s] before the first [c]. *)
Fixpoint split_head (c : ascii) (s : string) : string :=
  match s with
  | EmptyString => EmptyString
  | String d s' => if Ascii.eqb d c then EmptyString else String d (split_head c s')
  end.

(** [arr.slice(start, end)] on integer arguments, negative ones counting from
    the end of the array. *)
Definition slice {A} (arr : list A) (start end_ : Z) : list A :=
  let len := Z.of_nat (length arr) in
  let k := if start <? 0 then Z.max (len + start) 0 else Z.min start len in
  let final := if end_ <? 0 then Z.max (len + end_) 0 else Z.min end_ len in
  firstn (Z.to_nat (final - k)) (skipn (Z.to_nat k) arr).

(** [arr.sort(compareFn)]: the sort is stable and, for a consistent
    comparator, its result does not depend on the algorithm; it is modelled by a
    stable insertion sort. *)
Fixpoint sort_insert {A} (compareFn : A -> A -> Z) (x : A) (arr : list A) : list A :=
  match arr with
  | [] => [x]
  | y :: arr' =>
      if compareFn x y <=? 0 then x :: arr else y :: sort_insert compareFn x arr'
  end.

Fixpoint Array_sort {A} (compareFn : A -> A -> Z) (arr : list A) : list A :=
  match arr with
  | [] => []
  | x :: arr' => sort_insert compareFn x (Array_sort compareFn arr')
  end.

(** A number that may be the result of a division by zero. *)
Inductive JsNumber := Finite (z : Z) | Infinity | NaN.

(** [Math.ceil(a / b)] for integers [a >= 0] and [b]. *)
Definition ceil_div (a b : Z) : JsNumber :=
  if b =? 0 then (if a =? 0 then NaN else Infinity)
  else Finite (- ((- a) / b)).

(** The value of a property read [obj[key]], as far as [typeof] tells. *)
Inductive JsValue := VUndefined | VString (s : string) | VNumber (n : Z).

(** ** The employee generator *)

Definition DEPARTMENTS : list (string * string) := [
  ("DEV", "Development");
  ("FIN", "Finance");
  ("MKT", "Marketing");
  ("HR", "Human Resources");
  ("RND", "Research & Development");
  ("OPS", "Operations")
].

(** [DEPARTMENTS[code]] *)
Fixpoint record_get (rec : list (string * string)) (key : string) : option string :=
  match rec with
  | [] => None
  | (k, v) :: rec' => if String.eqb k key then Some v else record_get rec' key
  end.

Definition names : list string := [
  "Kevin Davis"; "Deborah Scott"; "Kenneth Johnson"; "Donna Moore"; "Sarah Martinez";
  "Matthew Campbell"; "Anthony Garcia"; "Melissa Jones"; "William Harris"; "Brian Moore";
  "Edward Thomas"; "Amanda Lee"; "Sarah Jones"; "Betty Robinson"; "Donna Ramirez";
  "Patricia Davis"; "Anthony Campbell"; "Amanda Davis"; "Christopher Ramirez"; "Kevin Martin";
  "Andrew Wright"; "Karen Thomas"; "Andrew Rodriguez"; "Edward Gonzalez"; "Michael Perez";
  "Kevin Brown"; "Brian Allen"; "Jessica Young"; "Mark Robinson"; "Edward Perez";
  "Margaret Lopez"; "Emily Miller"; "Richard Clark"; "James Harris"; "Emily Allen";
  "Patricia Lee"; "Paul Garcia"; "Linda Peterson"; "Joshua Wright"; "Betty Rodriguez";
  "Michelle Peterson"; "Matthew Jones"; "Karen Wright"; "David Taylor"; "Susan Perez";
  "Patricia Garcia"; "Charles Hernandez"; "George Martinez"; "Karen White"; "William Thompson"
].

Definition deptCodes : list string := ["DEV"; "FIN"; "MKT"; "HR"; "RND"; "OPS"].

(** What the generator reads from its environment in iteration [i]:
    [crypto.randomUUID()], the two [new Date()] and [Math.random()]. *)
Record GenOracle := {
  gen_uuid : nat -> string;
  gen_today : nat -> Z;
  gen_updated : nat -> Z;
  gen_random : nat -> Q;
}.

(** [365.25 * 24 * 60 * 60 * 1000], the milliseconds of a year of 365.25 days *)
Definition ms_per_year : Z := 31557600000.

Section Generator.
Context `{JsRuntime}.

(** [hireDate] of iteration [i], in epoch milliseconds *)
Definition hireDate (i : nat) : Z :=
  Date_local (2015 + Z.of_nat (i / 100)) (Z.of_nat (i mod 12))
             (1 + Z.of_nat (i mod 28)).

(** The body of the loop of [generateEmployees] for index [i]. *)
Definition employee_at (o : GenOracle) (i : nat) : Employee :=
  let deptCode := nth (i mod length deptCodes) deptCodes "" in
  let hireDate := hireDate i in
  let today := gen_today o i in
  let tenureYears := (today - hireDate) / ms_per_year in
  let salary := 35000 + Qfloor (gen_random o i * 65000) in
  {| id := gen_uuid o i;
     created_at := toISOString hireDate;
     updated_at := toISOString (gen_updated o i);
     employee_id := "E" ++ padStart (String_of_nat (i + 1)) 4 "0";
     name := nth (i mod length names) names "";
     department_code := deptCode;
     salary := salary;
     hire_date := split_head "T" (toISOString hireDate);
     department_name := default "" (record_get DEPARTMENTS deptCode);
     annual_salary_eur := Qfloor (inject_Z salary * (92 # 100) + (1 # 2));
     tenure_years := tenureYears |}.

(** [generateEmployees(count)] *)
Definition generateEmployees (o : GenOracle) (count : nat) : list Employee :=
  map (employee_at o) (seq 0 count).

(** The module state after [mockData.ts] has been loaded. *)
Definition module_load (o : GenOracle) (now : Z) : World :=
  {| MOCK_EMPLOYEES := generateEmployees o 500;
     MOCK_JOBS := initializeSampleJobs now ∅;
     timers := ∅ |}.

End Generator.

(** ** The employee listing *)

Record EmployeeQuery := {
  page : option Z;
  page_size : option Z;
  sort_by : option string;
  order : option string;
  search : option string;
  department : option string;
}.

Record EmployeesPage := {
  employees : list Employee;
  total : Z;
  out_page : Z;
  out_page_size : Z;
  total_pages : JsNumber;
}.

(** Truthiness of an optional string: [undefined] and [''] are falsy. *)
Definition truthy (s : option string) : bool :=
  match s with
  | Some s => negb (String.eqb s "")
  | None => false
  end.

(** [emp[key]] for [key] read as a [keyof Employee]; a key that is not a
    field of the record yields a value that is neither a string nor a number. *)
Definition Employee_get (emp : Employee) (key : string) : JsValue :=
  if String.eqb key "id" then VString (id emp)
  else if String.eqb key "created_at" then VString (created_at emp)
  else if String.eqb key "updated_at" then VString (updated_at emp)
  else if String.eqb key "employee_id" then VString (employee_id emp)
  else if String.eqb key "name" then VString (name emp)
  else if String.eqb key "department_code" then VString (department_code emp)
  else if String.eqb key "salary" then VNumber (salary emp)
  else if String.eqb key "hire_date" then VString (hire_date emp)
  else if String.eqb key "department_name" then VString (department_name emp)
  else if String.eqb key "annual_salary_eur" then VNumber (annual_salary_eur emp)
  else if String.eqb key "tenure_years" then VNumber (tenure_years emp)
  else VUndefined.

Section Listing.
Context `{JsRuntime}.

(** The comparator passed to [filtered.sort]. *)
Definition compareEmployees (sort_by0 order0 : string) (a b : Employee) : Z :=
  let aValue := Employee_get a sort_by0 in
  let bValue := Employee_get b sort_by0 in
  match aValue, bValue with
  | VString aValue, VString bValue =>
      if String.eqb order0 "asc"
      then localeCompare aValue bValue
      else localeCompare bValue aValue
  | VNumber aValue, VNumber bValue =>
      if String.eqb order0 "asc" then aValue - bValue else bValue - aValue
  | _, _ => 0
  end.

(** The predicate of the search filter. *)
Definition search_matches (searchLower : string) (emp : Employee) : bool :=
  includes (toLowerCase (name emp)) searchLower ||
  includes (toLowerCase (employee_id emp)) searchLower.

(** [filterEmployees] *)
Definition filterEmployees (w : World) (params : EmployeeQuery) : EmployeesPage :=
  let page0 := default 1 (page params) in
  let page_size0 := default 20 (page_size params) in
  let sort_by0 := default "employee_id" (sort_by params) in
  let order0 := default "asc" (order params) in
  let filtered := MOCK_EMPLOYEES w in
  let filtered :=
    if truthy (search params) then
      let searchLower := toLowerCase (default "" (search params)) in
      List.filter (search_matches searchLower) filtered
    else filtered in
  let filtered :=
    if truthy (department params) then
      List.filter
        (fun emp => String.eqb (department_name emp) (default "" (department params)))
        filtered
    else filtered in
  let filtered := Array_sort (compareEmployees sort_by0 order0) filtered in
  let total0 := Z.of_nat (length filtered) in
  let total_pages0 := ceil_div total0 page_size0 in
  let start := (page0 - 1) * page_size0 in
  let end_ := start + page_size0 in
  let employees0 := slice filtered start end_ in
  {| employees := employees0;
     total := total0;
     out_page := page0;
     out_page_size := page_size0;
     total_pages := total_pages0 |}.

End Listing.

(** ** The request handlers ([handlers.ts]) *)

Inductive Json :=
| JNull
| JNum (n : Z)
| JStr (s : string)
| JArr (items : list Json)
| JObj (props : list (string * Json)).

Record HttpResponse := { http_status : Z; body : Json }.

(** A [File] of a multipart form. *)
Record File := { file_name : string; size : Z }.

(** What [formData.get('file')] evaluates to. *)
Inductive FormDataEntryValue :=
| entry_null
| entry_string (s : string)
| entry_file (f : File).

(** The body of an upload request: [request.formData()] throws on a body that
    is not a form. *)
Inductive UploadBody :=
| NotAForm
| FormData (file : FormDataEntryValue).

Definition json_of_option_string (s : option string) : Json :=
  match s with
  | Some s => JStr s
  | None => JNull
  end.

Definition json_of_JobError (e : JobError) : Json :=
  JObj [("row", JNum (row e)); ("field", JStr (field e)); ("message", JStr (message e))].

(** [HttpResponse.json(jobStatus)]: the properties of the object literal of
    [getMockJobStatus], in the order they are written. *)
Definition json_of_JobSnapshot (s : JobSnapshot) : Json :=
  JObj [
    ("job_id", JStr (r_job_id s));
    ("filename", JStr (r_filename s));
    ("status", JStr (JobStatus_str (r_status s)));
    ("current_step", JStr (r_current_step s));
    ("total_rows", JNum (r_total_rows s));
    ("processed_rows", JNum (r_processed_rows s));
    ("error_rows", JNum (r_error_rows s));
    ("errors", JArr (map json_of_JobError (r_errors s)));
    ("started_at", JStr (r_started_at s));
    ("completed_at", json_of_option_string (r_completed_at s))
  ].

Definition json_of_Employee (e : Employee) : Json :=
  JObj [
    ("id", JStr (id e));
    ("created_at", JStr (created_at e));
    ("updated_at", JStr (updated_at e));
    ("employee_id", JStr (employee_id e));
    ("name", JStr (name e));
    ("department_code", JStr (department_code e));
    ("salary", JNum (salary e));
    ("hire_date", JStr (hire_date e));
    ("department_name", JStr (department_name e));
    ("annual_salary_eur", JNum (annual_salary_eur e));
    ("tenure_years", JNum (tenure_years e))
  ].

(** [Infinity] and [NaN] are serialised as [null]. *)
Definition json_of_JsNumber (n : JsNumber) : Json :=
  match n with
  | Finite z => JNum z
  | _ => JNull
  end.

Definition json_of_EmployeesPage (r : EmployeesPage) : Json :=
  JObj [
    ("employees", JArr (map json_of_Employee (employees r)));
    ("total", JNum (total r));
    ("page", JNum (out_page r));
    ("page_size", JNum (out_page_size r));
    ("total_pages", json_of_JsNumber (total_pages r))
  ].

(** The names of the properties of a JSON object. *)
Definition json_keys (j : Json) : list string :=
  match j with
  | JObj props => map fst props
  | _ => []
  end.

Definition detail (msg : string) : Json := JObj [("detail", JStr msg)].

(** [x || undefined] on an optional string *)
Definition or_undefined (s : option string) : option string :=
  if truthy s then s else None.

Section Handlers.
Context `{JsRuntime}.

(** [POST /api/upload] *)
Definition post_upload (uuid : string) (now : Z) (request : UploadBody) (w : World)
  : HttpResponse * World :=
  match request with
  | NotAForm => ({| http_status := 500; body := detail "Upload failed" |}, w)
  | FormData entry_null
  | FormData (entry_string EmptyString) =>
      ({| http_status := 400; body := detail "No file provided" |}, w)
  | FormData (entry_string (String _ _)) =>
      (* [file.name] is undefined: the call throws and is caught *)
      ({| http_status := 500; body := detail "Upload failed" |}, w)
  | FormData (entry_file file) =>
      if negb (endsWith (file_name file) ".xlsx") &&
         negb (endsWith (file_name file) ".xls")
      then ({| http_status := 400;
               body := detail "Only .xlsx and .xls files are supported" |}, w)
      else if 10 * 1024 * 1024 <? size file
      then ({| http_status := 413;
               body := detail "File size must be less than 10MB" |}, w)
      else
        let '(job_id0, w') := createMockJob uuid now (file_name file) (size file) w in
        ({| http_status := 200; body := JObj [("job_id", JStr job_id0)] |}, w')
  end.

(** [GET /api/status/:jobId] *)
Definition get_status (w : World) (jobId : string) : HttpResponse :=
  match getMockJobStatus w jobId with
  | None => {| http_status := 404; body := detail "Job not found" |}
  | Some jobStatus => {| http_status := 200; body := json_of_JobSnapshot jobStatus |}
  end.

(** [GET /api/employees]; the numeric fields of [query] are the search
    parameters after [parseInt], [None] when the parameter is absent or
    empty. *)
Definition get_employees (w : World) (query : EmployeeQuery) : HttpResponse :=
  let params := {|
    page := Some (default 1 (page query));
    page_size := Some (default 20 (page_size query));
    sort_by := or_undefined (sort_by query);
    order := or_undefined (order query);
    search := or_undefined (search query);
    department := or_undefined (department query) |} in
  let response := filterEmployees w params in
  {| http_status := 200; body := json_of_EmployeesPage response |}.

(** ** Events of the running application

    The state changes only when a request is handled or a timer fires.  The
    order in which the interval and the timeout of a closure fire is left to
    the scheduler: any interleaving is covered. *)
Inductive Event :=
| EvUpload (uuid : string) (now : Z) (request : UploadBody)
| EvTimeout (job_id0 : string) (now : Z)
| EvTick (job_id0 : string)
| EvStatus (jobId : string)
| EvEmployees (query : EmployeeQuery).

Definition apply_event (ev : Event) (w : World) : World :=
  match ev with
  | EvUpload uuid now request => snd (post_upload uuid now request w)
  | EvTimeout job_id0 now => fire_timeout now job_id0 w
  | EvTick job_id0 => fire_tick job_id0 w
  | EvStatus _ => w
  | EvEmployees _ => w
  end.

(** An event can occur when its timer is live; [crypto.randomUUID()] returns
    an identifier that is not in use. *)
Definition enabled (ev : Event) (w : World) : Prop :=
  match ev with
  | EvUpload uuid _ _ => MOCK_JOBS w !! uuid = None
  | EvTimeout job_id0 _ =>
      exists sim, timers w !! job_id0 = Some sim /\ timeout_pending sim = true
  | EvTick job_id0 =>
      exists sim, timers w !! job_id0 = Some sim /\ is_Some (progressInterval sim)
  | EvStatus _ => True
  | EvEmployees _ => True
  end.

Inductive step : World -> Event -> World -> Prop :=
| step_event w ev : enabled ev w -> step w ev (apply_event ev w).

(** [run w evs w']: the events [evs] lead from [w] to [w']. *)
Inductive run : World -> list Event -> World -> Prop :=
| run_nil w : run w [] w
| run_cons w ev w1 evs w2 : step w ev w1 -> run w1 evs w2 -> run w (ev :: evs) w2.

(** The states of the application: those a run reaches from module load. *)
Definition reachable (w : World) : Prop :=
  exists o now evs, run (module_load o now) evs w.

End Handlers.

(** ** Running a list of events *)

Section Exec.
Context `{JsRuntime}.

Definition enabledb (ev : Event) (w : World) : bool :=
  match ev with
  | EvUpload uuid _ _ => bool_decide (MOCK_JOBS w !! uuid = None)
  | EvTimeout job_id0 _ =>
      match timers w !! job_id0 with
      | Some sim => timeout_pending sim
      | None => false
      end
  | EvTick job_id0 =>
      match timers w !! job_id0 with
      | Some sim => bool_decide (is_Some (progressInterval sim))
      | None => false
      end
  | EvStatus _ => true
  | EvEmployees _ => true
  end.

(** The state after the events [evs], each applied to the state the
    previous ones left. *)
Fixpoint exec (evs : list Event) (w : World) : World :=
  match evs with
  | [] => w
  | ev :: evs' => exec evs' (apply_event ev w)
  end.

(** Whether each event of [evs] is enabled when its turn comes. *)
Fixpoint schedulable (evs : list Event) (w : World) : bool :=
  match evs with
  | [] => true
  | ev :: evs' => enabledb ev w && schedulable evs' (apply_event ev w)
  end.

End Exec.

(** ** A concrete host

    A host in the UTC time zone whose arithmetic is exact, whose collation
    is the order of the character codes and which lowers the ASCII letters
    only; it is the host the examples below are evaluated on, all of them on
    ASCII text. *)

(** Days since 1970-01-01 of the civil date [y]-[m]-[d] ([m] from 1). *)
Definition days_from_civil (y m d : Z) : Z :=
  let y' := if m <=? 2 then y - 1 else y in
  let era := y' / 400 in
  let yoe := y' - era * 400 in
  let doy := (153 * (m + (if 2 <? m then -3 else 9)) + 2) / 5 + d - 1 in
  let doe := yoe * 365 + yoe / 4 - yoe / 100 + doy in
  era * 146097 + doe - 719468.

(** The civil date (year, month from 1, day) of a day number. *)
Definition civil_from_days (z : Z) : Z * Z * Z :=
  let z := z + 719468 in
  let era := z / 146097 in
  let doe := z - era * 146097 in
  let yoe := (doe - doe / 1460 + doe / 36524 - doe / 146096) / 365 in
  let y := yoe + era * 400 in
  let doy := doe - (365 * yoe + yoe / 4 - yoe / 100) in
  let mp := (5 * doy + 2) / 153 in
  let d := doy - (153 * mp + 2) / 5 + 1 in
  let m := if mp <? 10 then mp + 3 else mp - 9 in
  (if m <=? 2 then y + 1 else y, m, d).

Definition digits (width : nat) (n : Z) : string :=
  padStart (String_of_nat (Z.to_nat n)) width "0".

Definition iso_utc (ms : Z) : string :=
  let '(y, m, d) := civil_from_days (ms / 86400000) in
  let t := ms mod 86400000 in
  digits 4 y ++ "-" ++ digits 2 m ++ "-" ++ digits 2 d ++ "T" ++
  digits 2 (t / 3600000) ++ ":" ++ digits 2 (t / 60000 mod 60) ++ ":" ++
  digits 2 (t / 1000 mod 60) ++ "." ++ digits 3 (t mod 1000) ++ "Z".

Definition compare_codes (a b : string) : Z :=
  match String.compare a b with
  | Lt => -1
  | Eq => 0
  | Gt => 1
  end.

#[export] Instance utc_host : JsRuntime := {|
  num_add := Qplus;
  num_div := Qdiv;
  toISOString := iso_utc;
  Date_local := fun y m d => days_from_civil y (m + 1) d * 86400000;
  localeCompare := compare_codes;
  toLowerCase := ascii_toLowerCase;
|}.

(** An environment for the generator: fixed identifiers and clock, and
    [Math.random()] running through multiples of 1/7. *)
Definition sample_oracle : GenOracle := {|
  gen_uuid := fun i => "emp-" ++ String_of_nat i;
  gen_today := fun _ => 1762128000000;
  gen_updated := fun _ => 1762128000000;
  gen_random := fun i => Z.of_nat (i mod 7) # 7;
|}.

(** * Vocabulary of the properties *)

(** ** What the progression needs of the rounded operations

    Adding a non-negative double never yields less than the first operand,
    and the quotient of non-negative doubles is non-negative; both hold of the
    correctly rounded operations of the host. *)
Class JsNumberLaws `{JsRuntime} : Prop := {
  num_add_ge : forall x y : Q, (0 <= y)%Q -> (x <= num_add x y)%Q;
  num_div_nonneg : forall x y : Q, (0 <= x)%Q -> (0 <= y)%Q -> (0 <= num_div x y)%Q;
}.

(** The moves of the job state machine. *)
Definition allowed (s s' : JobStatus) : Prop :=
  s = s' \/
  (s = pending /\ s' = processing) \/
  (s = processing /\ (s' = completed \/ s' = failed)).

Definition terminal (s : JobStatus) : Prop := s = completed \/ s = failed.

(** What holds of every stored job [job] under the key [j]. *)
Definition job_inv (j : string) (job : MockJob) : Prop :=
  processed_rows job <= total_rows /\
  (status job = completed -> processed_rows job = total_rows) /\
  (status job = failed -> j = "demo-failed-job-001").

Section Invariants.
Context `{JsRuntime}.

(** What ties a closure to the job it drives.  Only the sign of
    [rowsPerUpdate] depends on the rounded operations. *)
Definition sim_inv (job : MockJob) (sim : Sim) : Prop :=
  if timeout_pending sim then
    match progressInterval sim with
    | None =>
        currentStep sim = 0%nat /\ status job = pending /\ processed_rows job = 0
    | Some iv =>
        status job = processing /\
        (1 <= currentStep sim <= 5)%nat /\
        endRows iv = inject_Z (rows (nth (currentStep sim - 1) steps default_step)) /\
        (JsNumberLaws -> (0 <= rowsPerUpdate iv)%Q) /\
        (inject_Z (processed_rows job) <= currentRows iv)%Q /\
        (currentRows iv <= endRows iv)%Q
    end
  else progressInterval sim = None /\ status job = completed.

Record world_inv (w : World) : Prop := {
  inv_jobs : forall j job, MOCK_JOBS w !! j = Some job -> job_inv j job;
  inv_sims : forall j sim, timers w !! j = Some sim ->
    exists job, MOCK_JOBS w !! j = Some job /\ sim_inv job sim;
}.

(** How one event may change a stored job. *)
Definition job_moves (job job' : MockJob) : Prop :=
  (JsNumberLaws -> processed_rows job <= processed_rows job') /\
  allowed (status job) (status job') /\
  (terminal (status job) -> job' = job).

(** How a run may change a stored job. *)
Definition job_advances (job job' : MockJob) : Prop :=
  (JsNumberLaws -> processed_rows job <= processed_rows job') /\
  (terminal (status job) -> job' = job).

(** The final branch of [processStep] has run for job [j]: its closure has
    no timer left. *)
Definition finished (w : World) (j : string) : Prop :=
  exists sim, timers w !! j = Some sim /\ timeout_pending sim = false.

End Invariants.

(** An accepted upload on the concrete host, and the clock of the examples. *)
(** What the upload endpoint requires of a request. *)
Definition acceptable (request : UploadBody) : Prop :=
  exists f, request = FormData (entry_file f) /\
    (endsWith (file_name f) ".xlsx" = true \/ endsWith (file_name f) ".xls" = true) /\
    size f <= 10 * 1024 * 1024.

(** The properties of the snapshot the status endpoint serialises. *)
Definition snapshot_keys : list string := [
  "job_id"; "filename"; "status"; "current_step"; "total_rows";
  "processed_rows"; "error_rows"; "errors"; "started_at"; "completed_at"
].

(** Reading back a decimal numeral, leading zeros allowed. *)
Definition nat_of_string (s : string) : option nat :=
  option_map Nat.of_uint (NilEmpty.uint_of_string s).

(** *** The tenure, in the words of the specification *)

(** The whole years elapsed from the instant [from] to the instant [to], by
    the calendar (in UTC): the difference of the years, less one as long as
    the anniversary of [from] in the year of [to] has not come. *)
Definition whole_years (from to : Z) : Z :=
  let '(y1, m1, d1) := civil_from_days (from / 86400000) in
  let '(y2, m2, d2) := civil_from_days (to / 86400000) in
  let t1 := from mod 86400000 in
  let t2 := to mod 86400000 in
  if (m2 <? m1) || ((m2 =? m1) && ((d2 <? d1) || ((d2 =? d1) && (t2 <? t1))))
  then y2 - y1 - 1
  else y2 - y1.

(** *** The listing, in the words of the specification *)

(** The elements of [l] whose position, counted from [i], lies in [a, b). *)
Fixpoint between_from {A} (i : Z) (l : list A) (a b : Z) : list A :=
  match l with
  | [] => []
  | x :: l' =>
      if (a <=? i) && (i <? b)
      then x :: between_from (i + 1) l' a b
      else between_from (i + 1) l' a b
  end.

(** The slice [a, b) of [l]. *)
Definition between {A} (l : list A) (a b : Z) : list A := between_from 0 l a b.

Section Selection.
Context `{JsRuntime}.



End Selection.

(** What the search needs of [toLowerCase]: on a text of ASCII characters it
    lowers the letters A to Z and keeps the other characters. *)
Class CaseLaws `{JsRuntime} : Prop := {
  toLowerCase_ascii : forall s : string,
    ascii_text s = true -> toLowerCase s = ascii_toLowerCase s;
}.

(** What sorting needs of the collation: it compares any two strings and is
    transitive. *)
Class CollationLaws `{JsRuntime} : Prop := {
  localeCompare_total : forall a b : string,
    localeCompare a b <= 0 \/ localeCompare b a <= 0;
  localeCompare_trans : forall a b c : string,
    localeCompare a b <= 0 -> localeCompare b c <= 0 -> localeCompare a c <= 0;
}.

Section ListingClaim.
Context `{JsRuntime}.



End ListingClaim.

Definition sample_now : Z := 1762128000000.

Definition sample_upload (uuid : string) : Event :=
  EvUpload uuid sample_now
    (FormData (entry_file {| file_name := "input.xlsx"; size := 245760 |})).

Definition sample_world : World := module_load sample_oracle sample_now.

(** A job is uploaded, starts, and its first interval ticks once. *)
Definition sample_start : list Event := [
  sample_upload "job-1";
  EvTimeout "job-1" sample_now;
  EvTimeout "job-1" sample_now;
  EvTick "job-1"
].

(** Two more ticks, the next step, and a tick of its interval. *)
Definition sample_progress : list Event := [
  EvTick "job-1";
  EvTick "job-1";
  EvTimeout "job-1" sample_now;
  EvTick "job-1"
].

(** A job is uploaded and its six timeouts fire, with some ticks between. *)
Definition sample_complete : list Event := [
  sample_upload "job-1";
  EvTimeout "job-1" sample_now;
  EvTimeout "job-1" sample_now;
  EvTick "job-1";
  EvTimeout "job-1" sample_now;
  EvTick "job-1";
  EvTick "job-1";
  EvTimeout "job-1" sample_now;
  EvTimeout "job-1" sample_now;
  EvTick "job-1";
  EvTimeout "job-1" sample_now
].

(** * The rest of the mock and the code that consumes it *)

(** ** Changes of a stored job *)

Section JobChanges.
Context `{JsRuntime}.

(** The job [createMockJob] stores under [uuid]. *)
Definition new_job (uuid : string) (now : Z) (filename0 : string) (fileSize : Z)
  : MockJob :=
  {| job_id := uuid; filename := filename0; file_size := fileSize;
     status := pending; current_step := "pending";
     started_at := toISOString now; completed_at := None;
     processed_rows := 0; employee_count := 0 |}.

(** The job the final branch of [processStep] leaves. *)
Definition completed_job (job : MockJob) (now : Z) : MockJob :=
  with_employee_count
    (with_completed_at
       (with_processed_rows
          (with_current_step (with_status job completed) "completed") total_rows)
       (Some (toISOString now)))
    (total_rows - Z.of_nat (length MOCK_JOB_ERRORS)).

(** The ways one event can leave the job stored under a key, given what was
    stored there before. *)
Inductive job_change (j : string) : option MockJob -> MockJob -> Prop :=
| change_none job : job_change j (Some job) job
| change_created now filename0 fileSize :
    job_change j None (new_job j now filename0 fileSize)
| change_tick job n :
    status job = processing -> n <= 500 ->
    (JsNumberLaws -> processed_rows job <= n) ->
    job_change j (Some job) (with_processed_rows job n)
| change_step job k :
    (k < 5)%nat -> status job = pending \/ status job = processing ->
    job_change j (Some job)
      (with_current_step (with_status job processing)
         (step_name (nth k steps default_step)))
| change_completed job now :
    status job = processing -> job_change j (Some job) (completed_job job now).

(** What every stored job satisfies besides [job_inv]. *)
Definition job_facts (j : string) (job : MockJob) : Prop :=
  job_id job = j /\
  (status job = completed <-> current_step job = "completed") /\
  (status job <> completed -> In (current_step job) (map step_name steps)) /\
  (status job = pending -> current_step job = "pending" /\ processed_rows job = 0) /\
  (completed_at job = None <-> status job = pending \/ status job = processing) /\
  employee_count job =
    (if decide (status job = completed)
     then total_rows - Z.of_nat (length MOCK_JOB_ERRORS) else 0) /\
  (status job <> completed -> processed_rows job <= 500) /\
  (JsNumberLaws -> 0 <= processed_rows job).

(** The fields of a job no event writes. *)
Definition same_identity (job job' : MockJob) : Prop :=
  job_id job' = job_id job /\ filename job' = filename job /\
  file_size job' = file_size job /\ started_at job' = started_at job.

End JobChanges.

(** The job an event writes, if any: the one an upload creates, or the one
    whose timer fires. *)
Definition event_job (ev : Event) : option string :=
  match ev with
  | EvUpload uuid _ _ => Some uuid
  | EvTimeout job_id0 _ => Some job_id0
  | EvTick job_id0 => Some job_id0
  | EvStatus _ => None
  | EvEmployees _ => None
  end.

(** ** Polling ([useJobStatus.ts]) *)

(** [refetchInterval]: the polling period, [None] for [false]; [interval] is
    the configured period, [parseInt(VITE_POLLING_INTERVAL_MS || '2000')]. *)
Definition refetchInterval (interval : Z) (data : option JobSnapshot) : option Z :=
  match data with
  | Some data =>
      if bool_decide (r_status data = processing) || bool_decide (r_status data = pending)
      then Some interval else None
  | None => None
  end.

(** [refetchOnMount] *)
Definition refetchOnMount (data : option JobSnapshot) : bool :=
  match data with
  | None => true
  | Some data =>
      if bool_decide (r_status data = processing) || bool_decide (r_status data = pending)
      then true else false
  end.

(** ** Progress display ([statusHelpers.ts], [ProcessingTimeline.tsx]) *)

(** [calculateProgress]; [None] is [null].  The quotient and the product are
    computed exactly. *)
Definition calculateProgress (processedRows totalRows : option Z) : Q :=
  match totalRows with
  | None => 0
  | Some totalRows =>
      if totalRows =? 0 then 0
      else match processedRows with
           | None => 0
           | Some processedRows =>
               if processedRows =? 0 then 0
               else Qmin (inject_Z processedRows / inject_Z totalRows * 100) 100
           end
  end.

Definition PROCESSING_STEPS : list (string * string) := [
  ("pending", "Pending");
  ("reading", "Reading Excel");
  ("validating", "Validating Data");
  ("transforming", "Transforming");
  ("persisting", "Saving to Database");
  ("completed", "Completed")
].

(** [arr.findIndex(pred)], counting from [i]: -1 when no element passes. *)
Fixpoint findIndex_from {A} (pred : A -> bool) (i : Z) (arr : list A) : Z :=
  match arr with
  | [] => -1
  | x :: arr' => if pred x then i else findIndex_from pred (i + 1) arr'
  end.

Definition findIndex {A} (pred : A -> bool) (arr : list A) : Z :=
  findIndex_from pred 0 arr.

Inductive StepStatus := step_completed | step_current | step_pending.

(** [getStepStatus] of [ProcessingTimeline] for the props [status0] and
    [currentStep0]. *)
Definition getStepStatus (status0 : JobStatus) (currentStep0 stepKey : string)
  : StepStatus :=
  let currentIndex :=
    findIndex (fun s => String.eqb (fst s) currentStep0) PROCESSING_STEPS in
  let stepIndex :=
    findIndex (fun s => String.eqb (fst s) stepKey) PROCESSING_STEPS in
  if bool_decide (status0 = completed) then step_completed
  else if bool_decide (status0 = failed) then
    (if stepIndex <=? currentIndex then step_current else step_pending)
  else if stepIndex <? currentIndex then step_completed
  else if stepIndex =? currentIndex then step_current
  else step_pending.

(** The step statuses the timeline renders, in the order of the steps. *)
Definition timeline (status0 : JobStatus) (currentStep0 : string) : list StepStatus :=
  map (fun step => getStepStatus status0 currentStep0 (fst step)) PROCESSING_STEPS.

(** ** Retry policy ([retryConfig.ts]) and the response interceptor ([api.ts]) *)

(** The response of a failed request: its status and, when they are strings,
    the [message] and the [detail] of its body. *)
Record ErrorResponse := {
  err_status : Z;
  data_message : option string;
  data_detail : option string;
}.

Record AxiosError := {
  ax_response : option ErrorResponse;
  (** whether [error.request] is set *)
  ax_request : bool;
  ax_message : string;
}.

(** What a request can be rejected with: a value that is not an object with
    the property [isAxiosError] (an [Error] among them), or an Axios error. *)
Inductive Rejection :=
| reject_value
| reject_Error (msg : string)
| reject_axios (e : AxiosError).

(** [a || b] on optional strings, then a default. *)
Definition first_truthy (a b : option string) (dflt : string) : string :=
  if truthy a then default "" a
  else if truthy b then default "" b
  else dflt.

(** The error handler of the response interceptor: what the promise is
    rejected with (logging left out). *)
Definition on_response_error (error : AxiosError) : Rejection :=
  match ax_response error with
  | Some resp =>
      let message0 :=
        first_truthy (data_message resp) (data_detail resp) "An error occurred" in
      reject_Error message0
  | None =>
      if ax_request error
      then reject_Error "No response from server. Please check your connection."
      else reject_axios error
  end.

(** [shouldRetry] *)
Definition shouldRetry (failureCount : nat) (error : Rejection) : bool :=
  let maxRetries := 3%nat in
  if (maxRetries <=? failureCount)%nat then false
  else match error with
       | reject_axios axiosError =>
           match ax_response axiosError with
           | None => true
           | Some resp =>
               let status0 := err_status resp in
               if (400 <=? status0) && (status0 <? 500)
               then (status0 =? 408) || (status0 =? 429)
               else if 500 <=? status0 then true
               else false
           end
       | _ => false
       end.

(** [getRetryDelay] *)
Definition getRetryDelay (attemptIndex : nat) : Z :=
  Z.min (1000 * 2 ^ Z.of_nat attemptIndex) 30000.

(** [shouldRetryMutation] *)
Definition shouldRetryMutation (failureCount : nat) (error : Rejection) : bool :=
  let maxRetries := 1%nat in
  if (maxRetries <=? failureCount)%nat then false
  else match error with
       | reject_axios axiosError =>
           match ax_response axiosError with
           | None => true
           | Some resp =>
               let status0 := err_status resp in
               (status0 =? 502) || (status0 =? 503) || (status0 =? 504)
           end
       | _ => false
       end.

(** [getMutationRetryDelay] *)
Definition getMutationRetryDelay (attemptIndex : nat) : Z :=
  Z.min (2000 * 2 ^ Z.of_nat attemptIndex) 10000.

(** ** Client-side validation ([validators.ts]) *)

Definition VALID_EXCEL_TYPES : list string := [
  "application/vnd.openxmlformats-officedocument.spreadsheetml.sheet";
  "application/vnd.ms-excel"
].

(** A [File] of the browser with its MIME type. *)
Record BrowserFile := { as_File : File; file_type : string }.

(** [String(n)] for an integer. *)
Definition String_of_Z (n : Z) : string :=
  if n <? 0 then "-" ++ String_of_nat (Z.to_nat (- n)) else String_of_nat (Z.to_nat n).

(** [validateFile]; [max_mb] is [parseInt(VITE_MAX_FILE_SIZE_MB || '10')];
    [None] is [null]. *)
Definition validateFile (max_mb : Z) (file : BrowserFile) : option string :=
  let MAX_FILE_SIZE := max_mb * 1024 * 1024 in
  if negb (existsb (String.eqb (file_type file)) VALID_EXCEL_TYPES)
  then Some "Only .xlsx and .xls files are supported"
  else if MAX_FILE_SIZE <? size (as_File file) then
    let maxSizeMB := MAX_FILE_SIZE / (1024 * 1024) in
    Some ("File size must be less than " ++ String_of_Z maxSizeMB ++ "MB")
  else None.

(** ** Relative times ([formatters.ts]) *)

Class IntlRuntime := {
  (** [new Date(s).getTime()], [None] for an invalid date *)
  Date_parse : string -> option Z;
  (** [new Intl.RelativeTimeFormat('en', { numeric: 'auto' }).format(value, unit)] *)
  relative_format : Z -> string -> string;
}.

Definition intervals : list (string * Z) := [
  ("year", 31536000);
  ("month", 2592000);
  ("week", 604800);
  ("day", 86400);
  ("hour", 3600);
  ("minute", 60)
].

(** The loop of [formatRelativeTime]: the first unit of which at least one
    fits in [diffInSeconds], with the number that fit. *)
Fixpoint first_interval (diffInSeconds : Z) (entries : list (string * Z))
  : option (Z * string) :=
  match entries with
  | [] => None
  | (unit0, seconds) :: entries' =>
      let interval := diffInSeconds / seconds in
      if 1 <=? interval then Some (interval, unit0)
      else first_interval diffInSeconds entries'
  end.

(** [prefix ? `${prefix} ${text}` : text] *)
Definition with_prefix (prefix : option string) (text : string) : string :=
  if truthy prefix then default "" prefix ++ " " ++ text else text.

Section RelativeTime.
Context `{IntlRuntime}.

(** [formatRelativeTime]; [now] is the clock read by [new Date()].  With an
    invalid date every comparison of the loop fails. *)
Definition formatRelativeTime (now : Z) (dateString prefix : option string) : string :=
  if negb (truthy dateString) then ""
  else match Date_parse (default "" dateString) with
       | None => with_prefix prefix "just now"
       | Some date =>
           let diffInSeconds := (now - date) / 1000 in
           match first_interval diffInSeconds intervals with
           | Some (interval, unit0) =>
               with_prefix prefix (relative_format (- interval) unit0)
           | None => with_prefix prefix "just now"
           end
       end.

End RelativeTime.

(** ** Log sanitising ([logger.ts]) *)

Definition sensitiveFields : list string :=
  ["password"; "token"; "authorization"; "cookie"].

Section Sanitize.
Context `{JsRuntime}.

Definition is_sensitive (key : string) : bool :=
  existsb (String.eqb (toLowerCase key)) sensitiveFields.

Definition redact (prop : string * Json) : string * Json :=
  if is_sensitive (fst prop) then (fst prop, JStr "[REDACTED]") else prop.

(** The own properties of an array: its elements under their indices. *)
Fixpoint array_props (i : nat) (items : list Json) : list (string * Json) :=
  match items with
  | [] => []
  | x :: items' => (String_of_nat i, x) :: array_props (S i) items'
  end.

(** [sanitize]: a value that is not an object is returned; an object is
    copied by spreading, its sensitive properties overwritten. *)
Definition sanitize (data : Json) : Json :=
  match data with
  | JObj props => JObj (map redact props)
  | JArr items => JObj (map redact (array_props 0 items))
  | _ => data
  end.

End Sanitize.

(** ** The jobs listing ([mockData.ts], [handlers.ts]) *)

(** An element of the array [getJobsList] builds from the store. *)
Record Job := {
  l_job_id : string;
  l_filename : string;
  l_file_size : Z;
  l_status : JobStatus;
  l_current_step : string;
  l_total_rows : Z;
  l_processed_rows : Z;
  l_error_rows : Z;
  l_successful_rows : Z;
  l_employee_count : Z;
  l_started_at : string;
  l_completed_at : option string;
}.

(** The callback of [Array.from(MOCK_JOBS.values()).map]. *)
Definition Job_of_MockJob (mockJob : MockJob) : Job :=
  {| l_job_id := job_id mockJob;
     l_filename := filename mockJob;
     l_file_size := file_size mockJob;
     l_status := status mockJob;
     l_current_step := current_step mockJob;
     l_total_rows := 508;
     l_processed_rows := processed_rows mockJob;
     l_error_rows :=
       if decide (status mockJob = completed)
       then Z.of_nat (length MOCK_JOB_ERRORS) else 0;
     l_successful_rows :=
       if decide (status mockJob = completed)
       then 508 - Z.of_nat (length MOCK_JOB_ERRORS) else 0;
     l_employee_count := employee_count mockJob;
     l_started_at := started_at mockJob;
     l_completed_at := completed_at mockJob |}.

(** [job[key]] for [key] read as a [keyof Job]; [null] and a missing
    property are neither a string nor a number. *)
Definition Job_get (job : Job) (key : string) : JsValue :=
  if String.eqb key "job_id" then VString (l_job_id job)
  else if String.eqb key "filename" then VString (l_filename job)
  else if String.eqb key "file_size" then VNumber (l_file_size job)
  else if String.eqb key "status" then VString (JobStatus_str (l_status job))
  else if String.eqb key "current_step" then VString (l_current_step job)
  else if String.eqb key "total_rows" then VNumber (l_total_rows job)
  else if String.eqb key "processed_rows" then VNumber (l_processed_rows job)
  else if String.eqb key "error_rows" then VNumber (l_error_rows job)
  else if String.eqb key "successful_rows" then VNumber (l_successful_rows job)
  else if String.eqb key "employee_count" then VNumber (l_employee_count job)
  else if String.eqb key "started_at" then VString (l_started_at job)
  else if String.eqb key "completed_at" then
    match l_completed_at job with
    | Some s => VString s
    | None => VUndefined
    end
  else VUndefined.

Record JobsQuery := {
  jobs_page : option Z;
  jobs_page_size : option Z;
  jobs_status : option string;
  jobs_sort_by : option string;
  jobs_order : option string;
}.

Record JobsPage := {
  jobs : list Job;
  jobs_total : Z;
  jobs_out_page : Z;
  jobs_out_page_size : Z;
  jobs_total_pages : JsNumber;
}.

(** [values] lists the jobs of the store of [w] in some order:
    [Array.from(MOCK_JOBS.values())] lists them in the order of insertion,
    which the store of the model does not record. *)
Definition enumerates (values : list MockJob) (w : World) : Prop :=
  Permutation values (map snd (map_to_list (MOCK_JOBS w))).

Section JobsListing.
Context `{JsRuntime}.

(** The comparator passed to [jobs.sort]. *)
Definition compareJobs (sort_by0 order0 : string) (a b : Job) : Z :=
  let aValue := Job_get a sort_by0 in
  let bValue := Job_get b sort_by0 in
  match aValue, bValue with
  | VString aValue, VString bValue =>
      if String.eqb order0 "asc"
      then localeCompare aValue bValue
      else localeCompare bValue aValue
  | VNumber aValue, VNumber bValue =>
      if String.eqb order0 "asc" then aValue - bValue else bValue - aValue
  | _, _ => 0
  end.

(** [getJobsList], on the array [values] of the stored jobs. *)
Definition getJobsList (values : list MockJob) (params : JobsQuery) : JobsPage :=
  let page0 := default 1 (jobs_page params) in
  let page_size0 := default 20 (jobs_page_size params) in
  let status0 := jobs_status params in
  let sort_by0 := default "started_at" (jobs_sort_by params) in
  let order0 := default "desc" (jobs_order params) in
  let jobs0 := map Job_of_MockJob values in
  let jobs0 :=
    if truthy status0 then
      List.filter
        (fun job => String.eqb (JobStatus_str (l_status job)) (default "" status0))
        jobs0
    else jobs0 in
  let jobs0 := Array_sort (compareJobs sort_by0 order0) jobs0 in
  let total0 := Z.of_nat (length jobs0) in
  let total_pages0 := ceil_div total0 page_size0 in
  let start := (page0 - 1) * page_size0 in
  let end_ := start + page_size0 in
  let paginatedJobs := slice jobs0 start end_ in
  {| jobs := paginatedJobs;
     jobs_total := total0;
     jobs_out_page := page0;
     jobs_out_page_size := page_size0;
     jobs_total_pages := total_pages0 |}.

End JobsListing.

(** ** The URL parser of the legacy server ([server.ts]) *)

(** [s.split(c)] for a one-character separator. *)
Fixpoint split_char (c : ascii) (s : string) : list string :=
  match s with
  | EmptyString => [EmptyString]
  | String d s' =>
      if Ascii.eqb d c then EmptyString :: split_char c s'
      else match split_char c s' with
           | h :: t => String d h :: t
           | [] => [String d EmptyString]
           end
  end.

Class UriRuntime := {
  (** [decodeURIComponent(s)], [None] when it throws a [URIError] *)
  decodeURIComponent : string -> option string;
}.

Record ParsedUrl := {
  url_path : string;
  url_params : gmap string string;
  url_query : gmap string string;
}.

(** [obj[key] = value] for a string [value], on the own properties of an
    object created by [{}]: the assignment to [__proto__] reaches the setter
    inherited from [Object.prototype], which ignores a string, and creates no
    property; every other key becomes, or stays, an own property. *)
Definition assign (obj : gmap string string) (key value : string)
  : gmap string string :=
  if String.eqb key "__proto__" then obj else <[key := value]> obj.

Section ParseUrl.
Context `{UriRuntime}.

(** The callback of [queryString.split('&').forEach], on the query object
    built so far; [None] once [decodeURIComponent] has thrown. *)
Definition add_param (query : option (gmap string string)) (param : string)
  : option (gmap string string) :=
  match query with
  | None => None
  | Some query =>
      match split_char "=" param with
      | key :: value :: _ =>
          if negb (String.eqb key "") then
            match decodeURIComponent key, decodeURIComponent value with
            | Some k, Some v => Some (assign query k v)
            | _, _ => None
            end
          else Some query
      | _ => Some query
      end
  end.

(** [parseUrl]; [None] when [decodeURIComponent] throws. *)
Definition parseUrl (url : string) : option ParsedUrl :=
  let pathAndQuery := hd "" (split_char "?" url) in
  let queryString :=
    if includes url "?" then nth 1 (split_char "?" url) "" else "" in
  let query :=
    if negb (String.eqb queryString "")
    then fold_left add_param (split_char "&" queryString) (Some ∅)
    else Some ∅ in
  match query with
  | Some query =>
      Some {| url_path := pathAndQuery; url_params := ∅; url_query := query |}
  | None => None
  end.

End ParseUrl.

(** Whether the character [c] occurs in [s]. *)
Fixpoint has_char (c : ascii) (s : string) : bool :=
  match s with
  | EmptyString => false
  | String d s' => Ascii.eqb d c || has_char c s'
  end.

(** The query string that lists the pairs [key=value], separated by [&]. *)
Fixpoint query_string (pairs : list (string * string)) : string :=
  match pairs with
  | [] => ""
  | (k, v) :: rest =>
      match rest with
      | [] => k ++ "=" ++ v
      | _ => k ++ "=" ++ v ++ "&" ++ query_string rest
      end
  end.

(** A key or a value that contains none of the separators of a URL. *)
Definition plain (s : string) : Prop :=
  has_char "?" s = false /\ has_char "&" s = false /\ has_char "=" s = false.

(** The employee passes the filters of the listing that are in force: a
    search text or a department that is absent or empty filters nothing. *)
Definition passes `{JsRuntime} (sch dep : option string) (emp : Employee) : bool :=
  (negb (truthy sch) || search_matches (toLowerCase (default "" sch)) emp) &&
  (negb (truthy dep) || String.eqb (department_name emp) (default "" dep)).

(** The department names of [DEPARTMENTS], the values the department filter
    of the listing is compared with. *)
Definition department_names : list string := map snd DEPARTMENTS.

(** ** Step labels and row counts *)

(** The row count of a job does not exceed the target of the step its label
    names. *)
Definition label_bound (job : MockJob) : Prop :=
  forall st, In st steps -> current_step job = step_name st ->
    processed_rows job <= rows st.

(** While an interval is live, the label of the job is the name of the step
    the closure is in. *)
Definition label_link (job : MockJob) (sim : Sim) : Prop :=
  timeout_pending sim = true -> is_Some (progressInterval sim) ->
  current_step job = step_name (nth (currentStep sim - 1) steps default_step).

Record label_inv (w : World) : Prop := {
  labels_jobs : forall j job, MOCK_JOBS w !! j = Some job -> label_bound job;
  labels_sims : forall j sim job,
    timers w !! j = Some sim -> MOCK_JOBS w !! j = Some job -> label_link job sim;
}.

(** ** Writes of one event *)

(** The state [w] with the job and the closure of [j] overwritten by those
    given, if any. *)
Definition put (j : string) (job : option MockJob) (sim : option Sim) (w : World)
  : World :=
  {| MOCK_EMPLOYEES := MOCK_EMPLOYEES w;
     MOCK_JOBS :=
       match job with
       | Some job => <[j := job]> (MOCK_JOBS w)
       | None => MOCK_JOBS w
       end;
     timers :=
       match sim with
       | Some sim => <[j := sim]> (timers w)
       | None => timers w
       end |}.

(** Whether the upload endpoint accepts the request. *)
Definition acceptableb (request : UploadBody) : bool :=
  match request with
  | FormData (entry_file f) =>
      (endsWith (file_name f) ".xlsx" || endsWith (file_name f) ".xls") &&
      (size f <=? 10 * 1024 * 1024)
  | _ => false
  end.

(** The number of uploads among [evs] that the endpoint accepts. *)
Fixpoint accepted_uploads (evs : list Event) : nat :=
  match evs with
  | [] => 0
  | EvUpload _ _ request :: evs' =>
      (if acceptableb request then 1 else 0) + accepted_uploads evs'
  | _ :: evs' => accepted_uploads evs'
  end.

(** ** Samples for the consumers of the mock *)

(** The snapshot of [job-1] after [sample_start]. *)
Definition sample_snapshot : JobSnapshot :=
  {| r_job_id := "job-1"; r_filename := "input.xlsx";
     r_status := processing; r_current_step := "reading";
     r_total_rows := 508; r_processed_rows := 10;
     r_error_rows := 0; r_errors := [];
     r_started_at := "2025-11-03T00:00:00.000Z";
     r_completed_at := None |}.

(** The stored job of [job-1] after [sample_start]. *)
Definition sample_job : MockJob :=
  {| job_id := "job-1"; filename := "input.xlsx"; file_size := 245760;
     status := processing; current_step := "reading";
     started_at := "2025-11-03T00:00:00.000Z"; completed_at := None;
     processed_rows := 10; employee_count := 0 |}.

(** The file of [sample_upload] as the browser hands it to the client. *)
Definition sample_file : BrowserFile :=
  {| as_File := {| file_name := "input.xlsx"; size := 245760 |};
     file_type := "application/vnd.openxmlformats-officedocument.spreadsheetml.sheet" |}.

(** A network failure: no response was received and no request is recorded. *)
Definition sample_network_error : Rejection :=
  reject_axios {| ax_response := None; ax_request := false;
                  ax_message := "Network Error" |}.

(** [decodeURIComponent] on the strings that hold no escape sequence, which it
    returns unchanged; the strings with a [%] are left out of this instance. *)
#[export] Instance unescaped_uri : UriRuntime := {|
  decodeURIComponent := fun s => if has_char "%" s then None else Some s
|}.

(** * Properties *)

Lemma rows_le_total k : rows (nth k steps default_step) <= 500.
Proof. do 6 (destruct k as [|k]; [simpl; lia|]). simpl. lia. Qed.

Section ProgressionFacts.
Context `{JsRuntime}.

Lemma job_moves_refl job : job_moves job job.
Proof. repeat split; [lia | by left]. Qed.

Lemma job_moves_advances job job' : job_moves job job' -> job_advances job job'.
Proof. intros (Hp & _ & Ht). by split. Qed.

Lemma job_advances_trans j1 j2 j3 :
  job_advances j1 j2 -> job_advances j2 j3 -> job_advances j1 j3.
Proof.
  intros [Hp Ht] [Hp' Ht']. split.
  - intros HL. specialize (Hp HL). specialize (Hp' HL). lia.
  - intros Hterm. specialize (Ht Hterm). subst j2. by apply Ht'.
Qed.

Lemma module_load_inv o now : world_inv (module_load o now).
Proof.
  split.
  - intros j job Hj. simpl in Hj. unfold initializeSampleJobs in Hj.
    repeat (apply lookup_insert_Some in Hj as [[<- <-] | [_ Hj]];
            [unfold job_inv, total_rows; simpl; repeat split; (lia || congruence)|]).
    by rewrite lookup_empty in Hj.
  - intros j sim Hj. simpl in Hj. by rewrite lookup_empty in Hj.
Qed.

(** Writing job [j] and its closure keeps the invariant when the new job
    and closure satisfy theirs. *)
Lemma update_inv w j job job' sim' :
  world_inv w ->
  MOCK_JOBS w !! j = Some job ->
  job_inv j job' -> sim_inv job' sim' -> job_moves job job' ->
  let w' := {| MOCK_EMPLOYEES := MOCK_EMPLOYEES w;
               MOCK_JOBS := <[j := job']> (MOCK_JOBS w);
               timers := <[j := sim']> (timers w) |} in
  world_inv w' /\
  forall j' job0, MOCK_JOBS w !! j' = Some job0 ->
    exists job1, MOCK_JOBS w' !! j' = Some job1 /\ job_moves job0 job1.
Proof.
  intros Hinv Hjob Hj Hs Hm w'. split; [split|]; simpl.
  - intros j' job0 Hj'. apply lookup_insert_Some in Hj' as [[<- <-] | [_ Hj']];
      [done | by apply (inv_jobs w Hinv)].
  - intros j' sim0 Hj'. apply lookup_insert_Some in Hj' as [[<- <-] | [Hne Hj']].
    + eexists. split; [apply lookup_insert_eq | done].
    + destruct (inv_sims w Hinv j' sim0 Hj') as (job0 & Hjob0 & Hs0).
      exists job0. split; [by rewrite lookup_insert_ne | done].
  - intros j' job0 Hj'. destruct (decide (j = j')) as [<- | Hne].
    + rewrite lookup_insert_eq. eexists. split; [done|]. congruence.
    + rewrite lookup_insert_ne by done. eexists.
      split; [done | apply job_moves_refl].
Qed.

(** A tick of the live interval. *)
Lemma fire_tick_inv w j :
  world_inv w -> world_inv (fire_tick j w) /\
  forall j' job, MOCK_JOBS w !! j' = Some job ->
    exists job', MOCK_JOBS (fire_tick j w) !! j' = Some job' /\ job_moves job job'.
Proof.
  intros Hinv. unfold fire_tick.
  destruct (timers w !! j) as [sim|] eqn:Hsim;
    [|split; [done|intros; eexists; split; [done|apply job_moves_refl]]].
  destruct (progressInterval sim) as [iv|] eqn:Hiv;
    [|split; [done|intros; eexists; split; [done|apply job_moves_refl]]].
  destruct (inv_sims w Hinv j sim Hsim) as (job & Hjob & Hs).
  rewrite Hjob. unfold sim_inv in Hs. rewrite Hiv in Hs.
  destruct (timeout_pending sim) eqn:Htp; [|by destruct Hs].
  destruct Hs as (Hst & Hcs & Hend & Hrpu & Hlo & Hhi).
  set (cur' := Qmin (num_add (currentRows iv) (rowsPerUpdate iv)) (endRows iv)).
  assert (Hcur' : (cur' <= endRows iv)%Q) by apply Q.le_min_r.
  assert (Hup : Qfloor cur' <= 500).
  { rewrite <- (Qfloor_Z 500). apply Qfloor_resp_le.
    apply Qle_trans with (endRows iv); [exact Hcur'|].
    rewrite Hend. rewrite <- Zle_Qle.
    apply rows_le_total. }
  pose proof (inv_jobs w Hinv j job Hjob) as (Hb & Hc & Hf).
  apply (update_inv w j job); try done.
  - unfold job_inv, total_rows in *. simpl.
    repeat split; [lia | congruence | congruence].
  - unfold sim_inv. simpl.
    repeat split; try done; try lia. apply Qfloor_le.
  - repeat split; simpl; [| by left | intros [Ht | Ht]; congruence].
    intros HL. rewrite <- (Qfloor_Z (processed_rows job)). apply Qfloor_resp_le.
    apply Qle_trans with (currentRows iv); [done|].
    apply Q.min_glb; [apply num_add_ge; by apply Hrpu | done].
Qed.

(** The pending timeout of a closure fires. *)
Lemma fire_timeout_inv w now j :
  world_inv w -> world_inv (fire_timeout now j w) /\
  forall j' job, MOCK_JOBS w !! j' = Some job ->
    exists job', MOCK_JOBS (fire_timeout now j w) !! j' = Some job' /\ job_moves job job'.
Proof.
  intros Hinv. unfold fire_timeout.
  destruct (timers w !! j) as [sim|] eqn:Hsim;
    [|split; [done|intros; eexists; split; [done|apply job_moves_refl]]].
  destruct (timeout_pending sim) eqn:Htp;
    [|split; [done|intros; eexists; split; [done|apply job_moves_refl]]].
  destruct (inv_sims w Hinv j sim Hsim) as (job & Hjob & Hs).
  pose proof (inv_jobs w Hinv j job Hjob) as (Hb & Hc & Hf).
  unfold sim_inv in Hs. rewrite Htp in Hs.
  unfold processStep. rewrite Hjob.
  destruct sim as [cs [iv|] tp]; simpl in *.
  - destruct Hs as (Hst & Hcs & Hend & Hrpu & Hlo & Hhi).
    assert (Hle : (inject_Z (processed_rows job) <= endRows iv)%Q)
      by (by apply Qle_trans with (currentRows iv)).
    rewrite Hend in Hle.
    destruct cs as [|[|[|[|[|[|cs]]]]]]; try lia; simpl in *;
      apply (update_inv w j job); try done;
      unfold job_inv, sim_inv, job_moves, total_rows; simpl;
      rewrite <- ?Zle_Qle in *.
    all: repeat split; try done; try lia; try congruence.
    all: try (intros HL; apply num_div_nonneg; [done | apply num_div_nonneg; done]).
    all: try (rewrite Hst; by left).
    all: try (rewrite Hst; right; right; split; [done | by left]).
    all: try (intros [Ht | Ht]; congruence).
  - destruct Hs as (Hcs & Hst & Hp). subst cs. simpl.
    apply (update_inv w j job); try done;
      unfold job_inv, sim_inv, job_moves, total_rows; simpl;
      rewrite <- ?Zle_Qle in *.
    all: repeat split; try done; try lia; try congruence.
    all: try (intros HL; apply num_div_nonneg; [done | apply num_div_nonneg; done]).
    all: try (rewrite Hst; right; by left).
    all: try (intros [Ht | Ht]; congruence).
Qed.

(** A new job and its closure. *)
Lemma createMockJob_inv w uuid now fname fsize :
  world_inv w -> MOCK_JOBS w !! uuid = None ->
  world_inv (snd (createMockJob uuid now fname fsize w)) /\
  forall j' job, MOCK_JOBS w !! j' = Some job ->
    MOCK_JOBS (snd (createMockJob uuid now fname fsize w)) !! j' = Some job.
Proof.
  intros Hinv Hfresh. unfold createMockJob, simulateJobProgress. simpl.
  rewrite lookup_insert_eq. simpl. split; [split|]; simpl.
  - intros j' job0 Hj'. apply lookup_insert_Some in Hj' as [[<- <-] | [_ Hj']].
    + unfold job_inv, total_rows. simpl. repeat split; (lia || congruence).
    + by apply (inv_jobs w Hinv).
  - intros j' sim0 Hj'. apply lookup_insert_Some in Hj' as [[<- <-] | [Hne Hj']].
    + eexists. split; [apply lookup_insert_eq | done].
    + destruct (inv_sims w Hinv j' sim0 Hj') as (job0 & Hjob0 & Hs0).
      exists job0. split; [by rewrite lookup_insert_ne | done].
  - intros j' job0 Hj'. rewrite lookup_insert_ne; [done | congruence].
Qed.

(** The world written by the upload handler is the one it got, or the one
    [createMockJob] returns. *)
Lemma post_upload_world uuid now request w :
  snd (post_upload uuid now request w) = w \/
  exists f, request = FormData (entry_file f) /\
    snd (post_upload uuid now request w) =
    snd (createMockJob uuid now (file_name f) (size f) w).
Proof.
  unfold post_upload. destruct request as [|[|[|]|f]]; try by left.
  destruct (_ && _); [by left|]. destruct (_ <? _); [by left|].
  right. exists f. split; [done|]. by destruct (createMockJob _ _ _ _ _).
Qed.

(** Every event keeps the invariant, keeps every stored job and moves it
    only along the state machine. *)
Lemma step_inv w ev w' :
  world_inv w -> step w ev w' ->
  world_inv w' /\
  forall j job, MOCK_JOBS w !! j = Some job ->
    exists job', MOCK_JOBS w' !! j = Some job' /\ job_moves job job'.
Proof.
  intros Hinv Hstep. destruct Hstep as [w ev Hen].
  destruct ev as [uuid now request | j now | j | j | q]; simpl in *.
  - destruct (post_upload_world uuid now request w) as [-> | (f & _ & ->)].
    + split; [done|]. intros; eexists; split; [done | apply job_moves_refl].
    + destruct (createMockJob_inv w uuid now (file_name f) (size f) Hinv Hen)
        as [Hinv' Hkeep].
      split; [done|]. intros j job Hj. exists job.
      split; [by apply Hkeep | apply job_moves_refl].
  - by apply fire_timeout_inv.
  - by apply fire_tick_inv.
  - split; [done|]. intros; eexists; split; [done | apply job_moves_refl].
  - split; [done|]. intros; eexists; split; [done | apply job_moves_refl].
Qed.

Lemma run_inv w evs w' :
  world_inv w -> run w evs w' ->
  world_inv w' /\
  forall j job, MOCK_JOBS w !! j = Some job ->
    exists job', MOCK_JOBS w' !! j = Some job' /\ job_advances job job'.
Proof.
  intros Hinv Hrun. induction Hrun as [w | w ev w1 evs w2 Hstep Hrun IH].
  - split; [done|]. intros j job Hj. exists job.
    split; [done | apply job_moves_advances, job_moves_refl].
  - destruct (step_inv w ev w1 Hinv Hstep) as [Hinv1 Hm].
    destruct (IH Hinv1) as [Hinv2 Ha]. split; [done|].
    intros j job Hj. destruct (Hm j job Hj) as (job1 & Hj1 & Hm1).
    destruct (Ha j job1 Hj1) as (job2 & Hj2 & Ha2). exists job2.
    split; [done|]. eapply job_advances_trans; [|exact Ha2].
    by apply job_moves_advances.
Qed.

Lemma reachable_inv w : reachable w -> world_inv w.
Proof.
  intros (o & now & evs & Hrun).
  by apply (run_inv _ _ _ (module_load_inv o now) Hrun).
Qed.

Lemma run_app w1 evs1 w2 evs2 w3 :
  run w1 evs1 w2 -> run w2 evs2 w3 -> run w1 (evs1 ++ evs2)%list w3.
Proof.
  induction 1 as [|w ev w1 evs w2 Hstep Hrun IH]; [done|].
  intros Hrun2. simpl. econstructor; [exact Hstep | by apply IH].
Qed.

Lemma reachable_run w evs w' : reachable w -> run w evs w' -> reachable w'.
Proof.
  intros (o & now & evs0 & Hrun) Hrun'. exists o, now, (evs0 ++ evs)%list.
  by eapply run_app.
Qed.

End ProgressionFacts.

(** ** Evaluating runs on the concrete host *)

Section ExecFacts.
Context `{JsRuntime}.

Lemma enabledb_enabled ev w : enabledb ev w = true -> enabled ev w.
Proof.
  destruct ev as [uuid now request | j now | j | j | q]; simpl; try done.
  - by intros ?%bool_decide_eq_true.
  - destruct (timers w !! j) as [sim|]; [|done]. intros Htp. by exists sim.
  - destruct (timers w !! j) as [sim|]; [|done].
    intros ?%bool_decide_eq_true. by exists sim.
Qed.

Lemma schedulable_run evs w : schedulable evs w = true -> run w evs (exec evs w).
Proof.
  revert w. induction evs as [|ev evs IH]; intros w Hs; simpl in *.
  - constructor.
  - apply andb_true_iff in Hs as [Hen Hs].
    econstructor; [constructor; by apply enabledb_enabled | by apply IH].
Qed.

Lemma schedulable_reachable o now evs :
  schedulable evs (module_load o now) = true ->
  reachable (exec evs (module_load o now)).
Proof. intros Hs. exists o, now, evs. by apply schedulable_run. Qed.

End ExecFacts.

#[export] Instance utc_host_laws : JsNumberLaws.
Proof.
  split; simpl.
  - intros x y Hy. rewrite <- (Qplus_0_r x) at 1. by apply Qplus_le_r.
  - intros x y Hx Hy. unfold Qdiv. apply Qmult_le_0_compat; [done|].
    by apply Qinv_le_0_compat.
Qed.

(** ** The job lifecycle *)

Section Lifecycle.
Context `{JsRuntime}.

Lemma getMockJobStatus_Some w j s :
  getMockJobStatus w j = Some s ->
  exists job, MOCK_JOBS w !! j = Some job /\
    r_processed_rows s = processed_rows job /\ r_status s = status job /\
    r_total_rows s = total_rows.
Proof.
  unfold getMockJobStatus. destruct (MOCK_JOBS w !! j) as [job|]; [|done].
  intros [= <-]. by exists job.
Qed.

(** C1. The [processed_rows] a status poll shows never decreases along a
    run and never exceeds [total_rows] = 508; a completed job shows exactly
    508; a tick of the interval stores
    [floor(min(currentRows + rowsPerUpdate, endRows))], and the ceilings of
    the steps, 0, 100, 300, 450, 500, do not decrease. *)
Theorem processed_rows_monotone_bounded `{!JsNumberLaws} w evs w' j s :
  reachable w -> run w evs w' ->
  getMockJobStatus w j = Some s ->
  (exists s', getMockJobStatus w' j = Some s' /\
     r_processed_rows s <= r_processed_rows s' /\
     r_processed_rows s' <= r_total_rows s' /\
     r_total_rows s' = 508 /\
     (r_status s' = completed -> r_processed_rows s' = 508)) /\
  (forall sim iv job,
     timers w !! j = Some sim -> progressInterval sim = Some iv ->
     MOCK_JOBS w !! j = Some job ->
     processed_rows <$> MOCK_JOBS (fire_tick j w) !! j =
     Some (Qfloor (Qmin (num_add (currentRows iv) (rowsPerUpdate iv)) (endRows iv)))) /\
  map rows steps = [0; 100; 300; 450; 500] /\
  StronglySorted Z.le (map rows steps).
Proof.
  intros Hreach Hrun Hs. split; [|split; [|split]].
  - apply getMockJobStatus_Some in Hs as (job & Hjob & Hp & _ & _).
    pose proof (reachable_inv w Hreach) as Hinv.
    destruct (run_inv w evs w' Hinv Hrun) as [Hinv' Hadv].
    destruct (Hadv j job Hjob) as (job' & Hjob' & Hmono & _).
    destruct (inv_jobs w' Hinv' j job' Hjob') as (Hb & Hc & _).
    unfold getMockJobStatus. rewrite Hjob'. eexists. split; [done|]. simpl.
    rewrite Hp. unfold total_rows in *. repeat split; [by apply Hmono | done | done].
  - intros sim iv job Hsim Hiv Hjob. unfold fire_tick.
    rewrite Hsim, Hiv, Hjob. simpl. by rewrite lookup_insert_eq.
  - reflexivity.
  - simpl. repeat constructor; lia.
Qed.

(** C2. The status of a job moves only along pending, processing, then
    completed or failed: every event moves it by one allowed step, a
    terminal job is never changed again, a job is created pending, and the
    first progression step makes it processing. *)
Theorem status_state_machine w :
  reachable w ->
  (forall ev w' j job, step w ev w' -> MOCK_JOBS w !! j = Some job ->
     exists job', MOCK_JOBS w' !! j = Some job' /\
                  allowed (status job) (status job')) /\
  (forall evs w' j job, run w evs w' -> MOCK_JOBS w !! j = Some job ->
     terminal (status job) -> MOCK_JOBS w' !! j = Some job) /\
  (forall uuid now fname fsize,
     status <$> MOCK_JOBS (snd (createMockJob uuid now fname fsize w)) !! uuid
     = Some pending) /\
  (forall j now sim,
     timers w !! j = Some sim -> timeout_pending sim = true ->
     currentStep sim = 0%nat ->
     status <$> MOCK_JOBS w !! j = Some pending /\
     status <$> MOCK_JOBS (fire_timeout now j w) !! j = Some processing).
Proof.
  intros Hreach. pose proof (reachable_inv w Hreach) as Hinv.
  split; [|split; [|split]].
  - intros ev w' j job Hstep Hjob.
    destruct (step_inv w ev w' Hinv Hstep) as [_ Hm].
    destruct (Hm j job Hjob) as (job' & Hjob' & _ & Ha & _). by exists job'.
  - intros evs w' j job Hrun Hjob Hterm.
    destruct (run_inv w evs w' Hinv Hrun) as [_ Hadv].
    destruct (Hadv j job Hjob) as (job' & Hjob' & _ & Ht).
    by rewrite Hjob', (Ht Hterm).
  - intros uuid now fname fsize. unfold createMockJob, simulateJobProgress.
    simpl. rewrite lookup_insert_eq. simpl. by rewrite lookup_insert_eq.
  - intros j now sim Hsim Htp Hcs.
    destruct (inv_sims w Hinv j sim Hsim) as (job & Hjob & Hs).
    unfold sim_inv in Hs. rewrite Htp in Hs.
    destruct (progressInterval sim) as [iv|] eqn:Hiv; [lia|].
    destruct Hs as (_ & Hst & _). rewrite Hjob. simpl. split; [by rewrite Hst|].
    unfold fire_timeout, processStep. rewrite Hsim, Htp, Hjob. simpl.
    rewrite Hcs. simpl. by rewrite lookup_insert_eq.
Qed.

(** C3. A job whose pipeline ran to the end is reported completed, not
    failed, with [processed_rows] equal to [total_rows], a positive
    [error_rows], and as many [error_rows] as entries in [errors]. *)
Theorem finished_job_completed w j :
  reachable w -> finished w j ->
  exists s, getMockJobStatus w j = Some s /\
    r_status s = completed /\ r_status s <> failed /\
    r_processed_rows s = r_total_rows s /\
    r_error_rows s = Z.of_nat (length (r_errors s)) /\
    0 < r_error_rows s.
Proof.
  intros Hreach (sim & Hsim & Htp). pose proof (reachable_inv w Hreach) as Hinv.
  destruct (inv_sims w Hinv j sim Hsim) as (job & Hjob & Hs).
  unfold sim_inv in Hs. rewrite Htp in Hs. destruct Hs as [_ Hst].
  destruct (inv_jobs w Hinv j job Hjob) as (_ & Hc & _).
  unfold getMockJobStatus. rewrite Hjob. eexists. split; [done|]. simpl.
  rewrite Hst. rewrite (Hc Hst). unfold total_rows. simpl.
  repeat split; (done || lia).
Qed.

(** The closure of a job after its pending timeout has fired. *)
Lemma fire_timeout_timer w now j sim job :
  timers w !! j = Some sim -> timeout_pending sim = true ->
  MOCK_JOBS w !! j = Some job ->
  exists sim', timers (fire_timeout now j w) !! j = Some sim' /\
    if (currentStep sim <? 5)%nat
    then currentStep sim' = S (currentStep sim) /\ timeout_pending sim' = true
    else timeout_pending sim' = false.
Proof.
  intros Hsim Htp Hjob. unfold fire_timeout, processStep.
  rewrite Hsim, Htp, Hjob. cbn [clearInterval currentStep length steps].
  destruct (currentStep sim <? 5)%nat; cbn [timers];
    rewrite lookup_insert_eq; eexists; (split; [done|]); done.
Qed.

(** Every job that has a closure can run to the end: at most six timeouts
    remain to fire. *)
Lemma uploaded_job_can_finish w j :
  reachable w -> is_Some (timers w !! j) ->
  exists evs w', run w evs w' /\ finished w' j.
Proof.
  intros Hreach [sim Hsim]. pose proof (reachable_inv w Hreach) as Hinv.
  clear Hreach. remember (6 - currentStep sim)%nat as n eqn:Hn.
  assert (Hle : (6 - currentStep sim <= n)%nat) by lia. clear Hn.
  revert w sim Hinv Hsim Hle. induction n as [|n IH]; intros w sim Hinv Hsim Hle.
  - destruct (timeout_pending sim) eqn:Htp.
    + destruct (inv_sims w Hinv j sim Hsim) as (job & _ & Hs).
      unfold sim_inv in Hs. rewrite Htp in Hs.
      destruct (progressInterval sim); [destruct Hs as (_ & Hcs & _) | destruct Hs as [Hcs _]];
        lia.
    + exists [], w. split; [constructor | by exists sim].
  - destruct (timeout_pending sim) eqn:Htp; [|exists [], w; split; [constructor | by exists sim]].
    destruct (inv_sims w Hinv j sim Hsim) as (job & Hjob & Hs).
    destruct (fire_timeout_timer w 0 j sim job Hsim Htp Hjob) as (sim' & Hsim' & Hnext).
    assert (Hstep : step w (EvTimeout j 0) (fire_timeout 0 j w)).
    { apply (step_event w (EvTimeout j 0)). by exists sim. }
    destruct (step_inv w _ _ Hinv Hstep) as [Hinv' _].
    destruct (currentStep sim <? 5)%nat eqn:Hlt.
    + destruct Hnext as [Hcs' Htp']. apply Nat.ltb_lt in Hlt.
      destruct (IH (fire_timeout 0 j w) sim' Hinv' Hsim' ltac:(lia)) as (evs & w' & Hrun & Hfin).
      exists (EvTimeout j 0 :: evs), w'. split; [by econstructor | done].
    + exists [EvTimeout j 0], (fire_timeout 0 j w).
      split; [econstructor; [exact Hstep | constructor] | by exists sim'].
Qed.

(** C10. No job a caller submits is ever failed: the only job whose
    status is failed is the sample [demo-failed-job-001] installed at module
    load, which stays failed, and an upload never receives its identifier. *)
Theorem uploaded_job_never_failed w :
  reachable w ->
  (forall j job, MOCK_JOBS w !! j = Some job -> status job = failed ->
     j = "demo-failed-job-001" /\ timers w !! j = None) /\
  (forall uuid now request, enabled (EvUpload uuid now request) w ->
     uuid <> "demo-failed-job-001") /\
  status <$> MOCK_JOBS w !! "demo-failed-job-001" = Some failed.
Proof.
  intros Hreach. pose proof (reachable_inv w Hreach) as Hinv.
  assert (Hdemo : status <$> MOCK_JOBS w !! "demo-failed-job-001" = Some failed).
  { destruct Hreach as (o & now & evs & Hrun).
    destruct (run_inv _ evs w (module_load_inv o now) Hrun) as [_ Hadv].
    edestruct (Hadv "demo-failed-job-001") as (job' & Hjob' & _ & Ht).
    { simpl. unfold initializeSampleJobs. apply lookup_insert_eq. }
    rewrite Hjob'. simpl in *. rewrite Ht; [done | by right]. }
  split; [|split; [|done]].
  - intros j job Hjob Hst.
    destruct (inv_jobs w Hinv j job Hjob) as (_ & _ & Hf). split; [by apply Hf|].
    destruct (timers w !! j) as [sim|] eqn:Hsim; [|done].
    destruct (inv_sims w Hinv j sim Hsim) as (job0 & Hjob0 & Hs).
    assert (job0 = job) as -> by congruence.
    unfold sim_inv in Hs. destruct (timeout_pending sim).
    + destruct (progressInterval sim); [destruct Hs as [Hs _] | destruct Hs as (_ & Hs & _)];
        congruence.
    + destruct Hs as [_ Hs]. congruence.
  - intros uuid now request Hen ->. simpl in Hen. by rewrite Hen in Hdemo.
Qed.

End Lifecycle.

Lemma processed_rows_monotone_bounded_witness :
  let w := exec sample_start sample_world in
  let w' := exec sample_progress w in
  exists s s',
    getMockJobStatus w "job-1" = Some s /\
    getMockJobStatus w' "job-1" = Some s' /\
    r_processed_rows s = 10 /\
    r_processed_rows s <= r_processed_rows s' /\
    r_processed_rows s' <= 508.
Proof.
  intros w w'.
  pose (s := {| r_job_id := "job-1"; r_filename := "input.xlsx";
                r_status := processing; r_current_step := "reading";
                r_total_rows := 508; r_processed_rows := 10;
                r_error_rows := 0; r_errors := [];
                r_started_at := "2025-11-03T00:00:00.000Z";
                r_completed_at := None |}).
  assert (Hs : getMockJobStatus w "job-1" = Some s) by (vm_compute; reflexivity).
  destruct (processed_rows_monotone_bounded w sample_progress w' "job-1" s)
    as [(s' & Hs' & Hle & Hb & Ht & _) _].
  - apply schedulable_reachable. vm_compute. reflexivity.
  - apply schedulable_run. vm_compute. reflexivity.
  - exact Hs.
  - exists s, s'. rewrite Ht in Hb. repeat split; assumption.
Defined.

Lemma status_state_machine_witness :
  let w := exec [sample_upload "job-1"] sample_world in
  status <$> MOCK_JOBS w !! "job-1" = Some pending /\
  status <$> MOCK_JOBS (fire_timeout sample_now "job-1" w) !! "job-1" = Some processing.
Proof.
  intros w.
  destruct (status_state_machine w) as (_ & _ & _ & Hfirst).
  - apply schedulable_reachable. vm_compute. reflexivity.
  - apply (Hfirst "job-1" sample_now
             {| currentStep := 0; progressInterval := None; timeout_pending := true |});
      vm_compute; reflexivity.
Defined.

Lemma finished_job_completed_witness :
  exists s, getMockJobStatus (exec sample_complete sample_world) "job-1" = Some s /\
    r_status s = completed /\ r_processed_rows s = 508 /\ r_error_rows s = 8.
Proof.
  destruct (finished_job_completed (exec sample_complete sample_world) "job-1")
    as (s & Hs & Hst & _ & Hp & He & _).
  - apply schedulable_reachable. vm_compute. reflexivity.
  - eexists. split; vm_compute; reflexivity.
  - exists s. split; [exact Hs|]. split; [exact Hst|].
    assert (Hs' := Hs). vm_compute in Hs'. injection Hs' as <-.
    split; reflexivity.
Defined.

Lemma uploaded_job_never_failed_witness :
  exists job,
    MOCK_JOBS (exec sample_start sample_world) !! "job-1" = Some job /\
    status job <> failed /\
    status <$> MOCK_JOBS (exec sample_start sample_world) !! "demo-failed-job-001"
    = Some failed.
Proof.
  destruct (uploaded_job_never_failed (exec sample_start sample_world))
    as (Honly & _ & Hdemo).
  - apply schedulable_reachable. vm_compute. reflexivity.
  - destruct (MOCK_JOBS (exec sample_start sample_world) !! "job-1")
      as [job|] eqn:Hjob; [|vm_compute in Hjob; discriminate Hjob].
    exists job. split; [reflexivity|]. split; [|exact Hdemo].
    intros Hst. destruct (Honly "job-1" job Hjob Hst) as [Heq _]. discriminate Heq.
Defined.

(** ** The upload endpoint *)

Section Upload.
Context `{JsRuntime}.

Lemma apply_event_employees ev w : MOCK_EMPLOYEES (apply_event ev w) = MOCK_EMPLOYEES w.
Proof.
  destruct ev as [uuid now request | j now | j | j | q]; simpl; try done.
  - destruct (post_upload_world uuid now request w) as [-> | (f & _ & ->)]; [done|].
    unfold createMockJob, simulateJobProgress. simpl.
    by rewrite lookup_insert_eq.
  - unfold fire_timeout. destruct (timers w !! j) as [sim|]; [|done].
    destruct (timeout_pending sim); [|done]. unfold processStep.
    destruct (MOCK_JOBS w !! j); [|done]. by destruct (_ <? _)%nat.
  - unfold fire_tick. destruct (timers w !! j) as [sim|]; [|done].
    destruct (progressInterval sim); [|done]. by destruct (MOCK_JOBS w !! j).
Qed.

Lemma run_employees w evs w' : run w evs w' -> MOCK_EMPLOYEES w' = MOCK_EMPLOYEES w.
Proof.
  induction 1 as [w | w ev w1 evs w2 Hstep Hrun IH]; [done|].
  destruct Hstep. by rewrite IH, apply_event_employees.
Qed.

(** C4. Uploading the same file a second time leaves the employees table
    as the first upload left it, which is as it was before: no event of a run,
    neither the creation of a job nor a step of its progression, writes
    [MOCK_EMPLOYEES], and the listing answers every query as before. *)
Theorem resubmission_keeps_employees
    w uuid1 now1 uuid2 now2 request evs1 w1 evs2 w2 :
  run w (EvUpload uuid1 now1 request :: evs1) w1 ->
  run w1 (EvUpload uuid2 now2 request :: evs2) w2 ->
  MOCK_EMPLOYEES w1 = MOCK_EMPLOYEES w /\
  MOCK_EMPLOYEES w2 = MOCK_EMPLOYEES w1 /\
  forall params, filterEmployees w2 params = filterEmployees w1 params.
Proof.
  intros Hrun1 Hrun2. apply run_employees in Hrun1, Hrun2.
  split; [done|]. split; [done|]. intros params. unfold filterEmployees.
  by rewrite Hrun2.
Qed.

(** C5. The upload endpoint answers 200 exactly when a file is present, its
    name ends in [.xlsx] or [.xls] and its size is at most 10 * 1024 * 1024;
    it then stores a job under the identifier it returns, pending and with no
    processed rows, and leaves the other jobs as they were; otherwise it
    answers 400, 413 or 500 and leaves the stores unchanged. *)
Theorem upload_accepts_iff uuid now request w :
  let resp := fst (post_upload uuid now request w) in
  let w' := snd (post_upload uuid now request w) in
  (http_status resp = 200 <-> acceptable request) /\
  (acceptable request ->
     body resp = JObj [("job_id", JStr uuid)] /\
     (exists s, getMockJobStatus w' uuid = Some s /\
        r_job_id s = uuid /\ r_status s = pending /\ r_processed_rows s = 0) /\
     forall j, j <> uuid -> MOCK_JOBS w' !! j = MOCK_JOBS w !! j) /\
  (~ acceptable request ->
     w' = w /\
     (http_status resp = 400 \/ http_status resp = 413 \/ http_status resp = 500)) /\
  (http_status resp = 400 \/ http_status resp = 413 -> w' = w).
Proof.
  assert (Hcases :
    (acceptable request /\
       fst (post_upload uuid now request w) =
         {| http_status := 200; body := JObj [("job_id", JStr uuid)] |} /\
       exists f, snd (post_upload uuid now request w) =
         snd (createMockJob uuid now (file_name f) (size f) w)) \/
    (~ acceptable request /\ snd (post_upload uuid now request w) = w /\
       (http_status (fst (post_upload uuid now request w)) = 400 \/
        http_status (fst (post_upload uuid now request w)) = 413 \/
        http_status (fst (post_upload uuid now request w)) = 500))).
  { unfold post_upload, acceptable.
    destruct request as [|[|[|c s]|f]]; simpl.
    1-4: right; split; [intros (f & Hf & _); discriminate Hf | split; [done|]; auto].
    destruct (endsWith (file_name f) ".xlsx") eqn:Hx;
      destruct (endsWith (file_name f) ".xls") eqn:Hl; simpl;
      try (destruct (Z.ltb_spec (10 * 1024 * 1024) (size f)); simpl).
    all: try (right; split;
              [intros (f' & [= <-] & Hname & Hsize);
               (lia || (destruct Hname; congruence))
              | split; [done | auto]]).
    all: left; split; [exists f; split; [done | split; [auto | lia]]|];
      (split; [done | by exists f]). }
  intros resp w'. subst resp w'.
  destruct Hcases as [(Hacc & Hresp & f & Hw) | (Hrej & Hw & Hst)].
  - rewrite Hresp, Hw. simpl. split; [done|]. split; [|split].
    + intros _. split; [done|]. split.
      * unfold getMockJobStatus, createMockJob, simulateJobProgress. simpl.
        rewrite lookup_insert_eq. simpl. rewrite lookup_insert_eq.
        eexists. split; [done|]. done.
      * intros j Hj. unfold createMockJob, simulateJobProgress. simpl.
        rewrite lookup_insert_eq. simpl. by rewrite lookup_insert_ne.
    + done.
    + intros [? | ?]; discriminate.
  - rewrite Hw. split; [|split; [done|split; [done|done]]].
    split; [|done]. intros H200. destruct Hst as [? | [? | ?]]; congruence.
Qed.

End Upload.

Lemma resubmission_keeps_employees_witness :
  let w1 := exec sample_complete sample_world in
  let w2 := exec [sample_upload "job-2"; EvTimeout "job-2" sample_now] w1 in
  MOCK_EMPLOYEES w2 = MOCK_EMPLOYEES w1 /\ MOCK_EMPLOYEES w1 = MOCK_EMPLOYEES sample_world.
Proof.
  intros w1 w2.
  destruct (resubmission_keeps_employees sample_world
              "job-1" sample_now "job-2" sample_now
              (FormData (entry_file {| file_name := "input.xlsx"; size := 245760 |}))
              (tail sample_complete) w1 [EvTimeout "job-2" sample_now] w2)
    as (H1 & H2 & _).
  - apply (schedulable_run sample_complete). vm_compute. reflexivity.
  - assert (Hs : schedulable [sample_upload "job-2"; EvTimeout "job-2" sample_now] w1
                 = true) by (vm_compute; reflexivity).
    exact (schedulable_run _ w1 Hs).
  - split; assumption.
Defined.

(** ** The status endpoint *)

Section Status.
Context `{JsRuntime}.

(** For a known job the endpoint answers 200 with the ten properties of the
    object literal of [getMockJobStatus], read from the stored job; for an
    unknown identifier [getMockJobStatus] is null and the endpoint answers
    404. *)
Lemma get_status_spec w jobId :
  match MOCK_JOBS w !! jobId with
  | Some job =>
      exists s, getMockJobStatus w jobId = Some s /\
        get_status w jobId = {| http_status := 200; body := json_of_JobSnapshot s |} /\
        json_keys (body (get_status w jobId)) = snapshot_keys /\
        r_job_id s = job_id job /\ r_filename s = filename job /\
        r_status s = status job /\ r_current_step s = current_step job /\
        r_processed_rows s = processed_rows job /\
        r_started_at s = started_at job /\ r_completed_at s = completed_at job
  | None =>
      getMockJobStatus w jobId = None /\
      get_status w jobId = {| http_status := 404; body := detail "Job not found" |}
  end.
Proof.
  unfold get_status, getMockJobStatus.
  destruct (MOCK_JOBS w !! jobId) as [job|]; [|done].
  eexists. split; [done|]. by repeat split.
Qed.

End Status.

(** C6. The snapshot the status endpoint returns for the known job
    [demo-completed-job-001] has the properties job_id, filename, status,
    current_step, total_rows, processed_rows, error_rows, errors, started_at
    and completed_at, and neither created_at nor updated_at; an unknown
    identifier yields null and 404. *)
Theorem status_snapshot_lacks_timestamps :
  let resp := get_status sample_world "demo-completed-job-001" in
  http_status resp = 200 /\
  json_keys (body resp) = snapshot_keys /\
  ~ In "created_at" (json_keys (body resp)) /\
  ~ In "updated_at" (json_keys (body resp)) /\
  getMockJobStatus sample_world "no-such-job" = None /\
  http_status (get_status sample_world "no-such-job") = 404.
Proof.
  assert (Hk : json_keys (body (get_status sample_world "demo-completed-job-001"))
               = snapshot_keys) by (vm_compute; reflexivity).
  simpl. rewrite Hk. repeat split; try (vm_compute; reflexivity).
  - intros Hin. vm_compute in Hin. intuition discriminate.
  - intros Hin. vm_compute in Hin. intuition discriminate.
Qed.

(** ** The employee generator *)

Lemma nat_of_string_zero s : nat_of_string (String "0" s) = nat_of_string s.
Proof.
  unfold nat_of_string. simpl. by destruct (NilEmpty.uint_of_string s).
Qed.

Lemma nat_of_string_padded k n :
  nat_of_string (replicate_char k "0" ++ String_of_nat n) = Some n.
Proof.
  induction k as [|k IH].
  - change (nat_of_string (String_of_nat n) = Some n).
    unfold nat_of_string, String_of_nat. rewrite NilEmpty.usu.
    cbn [option_map]. by rewrite DecimalNat.Unsigned.of_to.
  - change (nat_of_string (String "0" (replicate_char k "0" ++ String_of_nat n))
            = Some n).
    by rewrite nat_of_string_zero.
Qed.

Lemma padStart_decimal_inj a b :
  padStart (String_of_nat a) 4 "0" = padStart (String_of_nat b) 4 "0" -> a = b.
Proof.
  unfold padStart. intros Heq.
  pose proof (nat_of_string_padded (4 - String.length (String_of_nat a)) a) as Ha.
  pose proof (nat_of_string_padded (4 - String.length (String_of_nat b)) b) as Hb.
  rewrite Heq in Ha. congruence.
Qed.

(** [Math.round(z * 0.92)] is within one half of [z * 0.92]. *)
Lemma Math_round_nearest z :
  -50 < 100 * Qfloor (inject_Z z * (92 # 100) + (1 # 2)) - 92 * z <= 50.
Proof.
  change (Qfloor (inject_Z z * (92 # 100) + (1 # 2)))
    with ((z * 92 * 2 + 100) / 200).
  pose proof (Z.div_mod (z * 92 * 2 + 100) 200 ltac:(lia)) as Hdm.
  pose proof (Z.mod_pos_bound (z * 92 * 2 + 100) 200 ltac:(lia)) as Hb.
  lia.
Qed.

Section GeneratorFacts.
Context `{JsRuntime}.

Lemma generateEmployees_lookup o n i e :
  generateEmployees o n !! i = Some e <-> (i < n)%nat /\ e = employee_at o i.
Proof.
  unfold generateEmployees. rewrite list_lookup_fmap.
  destruct (decide (i < n)%nat) as [Hlt | Hge].
  - rewrite lookup_seq_lt by done. simpl. split.
    + intros [= <-]. done.
    + intros [_ ->]. done.
  - rewrite lookup_seq_ge by lia. simpl. split; [done | intros [? _]; lia].
Qed.

Lemma deptCode_mapped i :
  record_get DEPARTMENTS (nth (i mod length deptCodes) deptCodes "")
  = Some (default "" (record_get DEPARTMENTS (nth (i mod length deptCodes) deptCodes ""))).
Proof.
  assert (Hlt : (i mod length deptCodes < 6)%nat) by (apply Nat.mod_upper_bound; done).
  destruct (i mod length deptCodes)%nat as [|[|[|[|[|[|k]]]]]]; try done; lia.
Qed.

(** C8, as amended. Every generated record carries the transformed
    attributes the directives declare: [department_name] is the entry of
    [DEPARTMENTS] for [department_code]; [annual_salary_eur] is the whole
    number nearest to [salary * 0.92], halves going up; [tenure_years] is the
    whole number of years of 365.25 days (31557600000 ms) that the time from
    the hire date to the current date holds, which is not always the number of
    whole calendar years elapsed. *)
Theorem generated_transforms o count i e :
  generateEmployees o count !! i = Some e ->
  record_get DEPARTMENTS (department_code e) = Some (department_name e) /\
  (-50 < 100 * annual_salary_eur e - 92 * salary e <= 50) /\
  (tenure_years e * ms_per_year <= gen_today o i - hireDate i
   < (tenure_years e + 1) * ms_per_year) /\
  hire_date e = split_head "T" (toISOString (hireDate i)).
Proof.
  intros [_ ->]%generateEmployees_lookup. simpl.
  split; [apply deptCode_mapped|].
  split; [apply Math_round_nearest|]. split; [|done].
  unfold ms_per_year.
    pose proof (Z.div_mod (gen_today o i - hireDate i) 31557600000 ltac:(lia)) as Hdm.
    pose proof (Z.mod_pos_bound (gen_today o i - hireDate i) 31557600000 ltac:(lia)) as Hb.
    lia.
Qed.

(** C9. The record at position [i] of a generated table has the identifier
    [E] followed by the decimal numeral of [i + 1] padded with zeros to four
    characters; records at different positions have different identifiers, so
    the table, at load and in every state a run reaches, holds at most one
    record per [employee_id]. *)
Theorem employee_id_unique o n :
  (forall i e, generateEmployees o n !! i = Some e ->
     employee_id e = "E" ++ padStart (String_of_nat (i + 1)) 4 "0") /\
  (forall i j ei ej,
     generateEmployees o n !! i = Some ei ->
     generateEmployees o n !! j = Some ej ->
     i <> j -> employee_id ei <> employee_id ej) /\
  NoDup (map employee_id (generateEmployees o n)) /\
  (forall now evs w, run (module_load o now) evs w ->
     NoDup (map employee_id (MOCK_EMPLOYEES w))).
Proof.
  assert (Hid : forall i e, generateEmployees o n !! i = Some e ->
            employee_id e = "E" ++ padStart (String_of_nat (i + 1)) 4 "0").
  { by intros i e [_ ->]%generateEmployees_lookup. }
  assert (Hne : forall m i j ei ej,
            generateEmployees o m !! i = Some ei ->
            generateEmployees o m !! j = Some ej ->
            i <> j -> employee_id ei <> employee_id ej).
  { intros m i j ei ej [_ ->]%generateEmployees_lookup
      [_ ->]%generateEmployees_lookup Hij. simpl.
    intros [= Heq]. apply padStart_decimal_inj in Heq. lia. }
  assert (Hnd : forall m, NoDup (map employee_id (generateEmployees o m))).
  { intros m. apply NoDup_alt. intros i j x Hi Hj.
    change (map employee_id) with (fmap (M:=list) employee_id) in Hi, Hj.
    rewrite list_lookup_fmap in Hi, Hj.
    destruct (generateEmployees o m !! i) as [ei|] eqn:Hei; [|done].
    destruct (generateEmployees o m !! j) as [ej|] eqn:Hej; [|done].
    simpl in Hi, Hj. destruct (decide (i = j)) as [|Hij]; [done|].
    exfalso. apply (Hne m i j ei ej Hei Hej Hij). congruence. }
  repeat split; [done | by apply Hne | done |].
  intros now evs w Hrun. rewrite (run_employees _ _ _ Hrun).
  exact (Hnd 500%nat).
Qed.

End GeneratorFacts.

Lemma generated_transforms_witness :
  let e := employee_at sample_oracle 499 in
  department_name e = "Finance" /\ salary e = 53571 /\
  annual_salary_eur e = 49285 /\ tenure_years e = 6 /\
  record_get DEPARTMENTS (department_code e) = Some (department_name e) /\
  (-50 < 100 * annual_salary_eur e - 92 * salary e <= 50).
Proof.
  intros e.
  destruct (generated_transforms sample_oracle 500 499 e) as (Hd & Hs & _ & _).
  - vm_compute. reflexivity.
  - repeat split; try (vm_compute; reflexivity); (exact Hd || apply Hs).
Defined.

(** C8, as stated, fails for the record E0143 of the sample table on the
    host in UTC: hired on 2016-11-03 and read on 2025-11-03, nine whole years
    have elapsed, while the nine years hold only 3287 days, a quarter of a day
    less than nine years of 365.25 days, and [tenure_years] is 8. *)
Lemma tenure_not_whole_years :
  let e := employee_at sample_oracle 142 in
  employee_id e = "E0143" /\
  hire_date e = "2016-11-03" /\
  toISOString (gen_today sample_oracle 142) = "2025-11-03T00:00:00.000Z" /\
  gen_today sample_oracle 142 - hireDate 142 = 3287 * 86400000 /\
  whole_years (hireDate 142) (gen_today sample_oracle 142) = 9 /\
  tenure_years e = 8 /\
  tenure_years e <> whole_years (hireDate 142) (gen_today sample_oracle 142).
Proof.
  intros e. repeat split; try (vm_compute; reflexivity).
  vm_compute. discriminate.
Qed.

(** ** The employee listing *)

Lemma between_from_firstn {A} (l : list A) i a b :
  between_from i l a b =
  firstn (Z.to_nat (b - Z.max a i)) (skipn (Z.to_nat (a - i)) l).
Proof.
  revert i. induction l as [|x l IH]; intros i.
  - by rewrite skipn_nil, firstn_nil.
  - cbn [between_from]. rewrite IH.
    destruct (Z.leb_spec a i) as [Hai | Hai]; destruct (Z.ltb_spec i b) as [Hib | Hib];
      cbn [andb].
    + replace (Z.to_nat (a - i)) with 0%nat by lia.
      replace (Z.to_nat (a - (i + 1))) with 0%nat by lia.
      replace (Z.to_nat (b - Z.max a i)) with (S (Z.to_nat (b - Z.max a (i + 1)))) by lia.
      reflexivity.
    + replace (Z.to_nat (b - Z.max a (i + 1))) with 0%nat by lia.
      replace (Z.to_nat (b - Z.max a i)) with 0%nat by lia.
      reflexivity.
    + replace (Z.to_nat (a - i)) with (S (Z.to_nat (a - (i + 1)))) by lia.
      replace (Z.max a (i + 1)) with (Z.max a i) by lia.
      reflexivity.
    + replace (Z.to_nat (b - Z.max a (i + 1))) with 0%nat by lia.
      replace (Z.to_nat (b - Z.max a i)) with 0%nat by lia.
      reflexivity.
Qed.


(** On a non-negative start and an end that is not before it, [slice] is the
    slice between the two positions. *)
Lemma slice_between {A} (l : list A) a b :
  0 <= a -> a <= b -> slice l a b = between l a b.
Proof.
  intros Ha Hab. unfold slice, between. rewrite between_from_firstn.
  destruct (Z.ltb_spec a 0) as [|_]; [lia|].
  destruct (Z.ltb_spec b 0) as [|_]; [lia|].
  replace (Z.max a 0) with a by lia. replace (a - 0) with a by lia.
  set (len := Z.of_nat (length l)).
  destruct (Z.le_gt_cases len a) as [Hge | Hlt].
  - rewrite !drop_ge by lia. by rewrite !firstn_nil.
  - replace (Z.min a len) with a by lia.
    destruct (Z.le_gt_cases b len) as [Hble | Hbgt].
    + by replace (Z.min b len) with b by lia.
    + replace (Z.min b len) with len by lia.
      rewrite !take_ge; [done | rewrite length_drop; lia | rewrite length_drop; lia].
Qed.

Lemma sort_insert_Permutation {A} (cmp : A -> A -> Z) x l :
  Permutation (sort_insert cmp x l) (x :: l).
Proof.
  induction l as [|y l IH]; simpl; [done|].
  destruct (cmp x y <=? 0); [done|].
  rewrite IH. apply perm_swap.
Qed.

Lemma Array_sort_Permutation {A} (cmp : A -> A -> Z) l :
  Permutation (Array_sort cmp l) l.
Proof.
  induction l as [|x l IH]; simpl; [done|].
  rewrite sort_insert_Permutation. by constructor.
Qed.

Section SortFacts.
Context {A : Type} (cmp : A -> A -> Z) (R : A -> A -> Prop).
Hypothesis cmp_le : forall a b, cmp a b <= 0 -> R a b.
Hypothesis cmp_gt : forall a b, 0 < cmp a b -> R b a.
Hypothesis R_trans : forall a b c, R a b -> R b c -> R a c.



End SortFacts.


Lemma filter_filter_and {A} (f g : A -> bool) l :
  List.filter g (List.filter f l) = List.filter (fun x => f x && g x) l.
Proof.
  induction l as [|x l IH]; simpl; [done|].
  destruct (f x); simpl; [|done]. destruct (g x); by rewrite IH.
Qed.


Section ListingFacts.
Context `{JsRuntime}.




End ListingFacts.

Section ListingTheorem.
Context `{CollationLaws} `{!CaseLaws}.




End ListingTheorem.

#[export] Instance utc_host_collation : CollationLaws.
Proof.
  split; simpl; unfold compare_codes.
  - intros a b. rewrite (String.compare_antisym a b).
    destruct (b ?= a)%string; simpl; lia.
  - intros a b c.
    destruct (a ?= b)%string eqn:Hab; [| |lia];
      destruct (b ?= c)%string eqn:Hbc; try lia; intros _ _.
    + apply String_as_OT.cmp_eq in Hab, Hbc. subst.
      assert ((c ?= c)%string = Eq) as -> by (by apply String_as_OT.cmp_eq). lia.
    + apply String_as_OT.cmp_eq in Hab. subst. rewrite Hbc. lia.
    + apply String_as_OT.cmp_eq in Hbc. subst. rewrite Hab. lia.
    + apply String_as_OT.cmp_lt in Hab, Hbc.
      pose proof (String_as_OT.lt_trans _ _ _ Hab Hbc) as Hac.
      apply String_as_OT.cmp_lt in Hac. unfold String_as_OT.cmp in Hac.
      rewrite Hac. lia.
Qed.

#[export] Instance utc_host_case : CaseLaws.
Proof. by split. Qed.



(** ** Changes of a stored job *)

Lemma with_status_same job s : status job = s -> with_status job s = job.
Proof. intros <-. by destruct job. Qed.

Section JobChangeFacts.
Context `{JsRuntime}.

Lemma fire_tick_change w j0 j job' :
  world_inv w -> MOCK_JOBS (fire_tick j0 w) !! j = Some job' ->
  job_change j (MOCK_JOBS w !! j) job'.
Proof.
  intros Hinv. unfold fire_tick.
  destruct (timers w !! j0) as [sim|] eqn:Hsim; [|intros ->; constructor].
  destruct (progressInterval sim) as [iv|] eqn:Hiv; [|intros ->; constructor].
  destruct (inv_sims w Hinv j0 sim Hsim) as (job & Hjob & Hs).
  rewrite Hjob. cbn [MOCK_JOBS]. unfold sim_inv in Hs. rewrite Hiv in Hs.
  destruct (timeout_pending sim); [|by destruct Hs].
  destruct Hs as (Hst & Hcs & Hend & Hrpu & Hlo & Hhi).
  intros [[<- <-] | [Hne ->]]%lookup_insert_Some; [|constructor].
  rewrite Hjob. apply change_tick; [done | |].
  - rewrite <- (Qfloor_Z 500). apply Qfloor_resp_le.
    apply Qle_trans with (endRows iv); [apply Q.le_min_r|].
    rewrite Hend, <- Zle_Qle. apply rows_le_total.
  - intros HL. rewrite <- (Qfloor_Z (processed_rows job)). apply Qfloor_resp_le.
    apply Qle_trans with (currentRows iv); [done|].
    apply Q.min_glb; [apply num_add_ge; by apply Hrpu | done].
Qed.

Lemma fire_timeout_change w now j0 j job' :
  world_inv w -> MOCK_JOBS (fire_timeout now j0 w) !! j = Some job' ->
  job_change j (MOCK_JOBS w !! j) job'.
Proof.
  intros Hinv. unfold fire_timeout.
  destruct (timers w !! j0) as [sim|] eqn:Hsim; [|intros ->; constructor].
  destruct (timeout_pending sim) eqn:Htp; [|intros ->; constructor].
  destruct (inv_sims w Hinv j0 sim Hsim) as (job & Hjob & Hs).
  unfold sim_inv in Hs. rewrite Htp in Hs.
  unfold processStep. rewrite Hjob.
  destruct sim as [cs [iv|] tp]; cbn [clearInterval currentStep progressInterval] in *.
  - destruct Hs as (Hst & Hcs & _).
    destruct cs as [|[|[|[|[|[|cs]]]]]]; try lia; cbn [Nat.eqb Nat.ltb Nat.leb length steps MOCK_JOBS];
      intros [[<- <-] | [Hne ->]]%lookup_insert_Some; try constructor; rewrite Hjob.
    + rewrite <- (with_status_same job processing Hst) at 2.
      by apply (change_step j0 job 1); [lia | right].
    + rewrite <- (with_status_same job processing Hst) at 2.
      by apply (change_step j0 job 2); [lia | right].
    + rewrite <- (with_status_same job processing Hst) at 2.
      by apply (change_step j0 job 3); [lia | right].
    + rewrite <- (with_status_same job processing Hst) at 2.
      by apply (change_step j0 job 4); [lia | right].
    + by apply (change_completed j0 job now).
  - destruct Hs as (Hcs & Hst & _). subst cs.
    cbn [Nat.eqb Nat.ltb Nat.leb length steps MOCK_JOBS].
    intros [[<- <-] | [Hne ->]]%lookup_insert_Some; [|constructor].
    rewrite Hjob. by apply (change_step j0 job 0); [lia | left].
Qed.

(** Every event leaves each stored job as it was, or creates it, or applies
    to it one tick, one step start or the completion. *)
Lemma step_job_change w ev w' j job' :
  world_inv w -> step w ev w' -> MOCK_JOBS w' !! j = Some job' ->
  job_change j (MOCK_JOBS w !! j) job'.
Proof.
  intros Hinv Hstep. destruct Hstep as [w ev Hen].
  destruct ev as [uuid now request | j0 now | j0 | j0 | q]; simpl in *.
  - destruct (post_upload_world uuid now request w) as [-> | (f & _ & ->)];
      [intros ->; constructor|].
    unfold createMockJob, simulateJobProgress. simpl. rewrite lookup_insert_eq. simpl.
    intros [[<- <-] | [Hne ->]]%lookup_insert_Some; [|constructor].
    rewrite Hen. apply change_created.
  - by apply fire_timeout_change.
  - by apply fire_tick_change.
  - intros ->. constructor.
  - intros ->. constructor.
Qed.

Lemma step_name_labels k :
  (k < 5)%nat ->
  step_name (nth k steps default_step) <> "completed" /\
  In (step_name (nth k steps default_step)) (map step_name steps).
Proof.
  intros Hk. do 5 (destruct k as [|k]; [simpl; split; [discriminate | tauto]|]). lia.
Qed.

Lemma job_change_facts j o job' :
  job_change j o job' ->
  (forall job, o = Some job -> job_facts j job) ->
  job_facts j job'.
Proof.
  intros Hch Hold. destruct Hch as [job | now fname fsize | job n Hst Hn Hmono
                                   | job k Hk Hst | job now Hst].
  - by apply Hold.
  - unfold job_facts, new_job. simpl.
    intuition (try congruence; try lia).
  - destruct (Hold job eq_refl) as (Hid & Hcur & Hlab & Hpe & Hca & Hec & Hup & Hlo).
    unfold job_facts. simpl. rewrite Hst in *.
    intuition (try congruence; try lia).
  - destruct (Hold job eq_refl) as (Hid & Hcur & Hlab & Hpe & Hca & Hec & Hup & Hlo).
    assert (Hnc : status job <> completed) by (destruct Hst; congruence).
    destruct (step_name_labels k Hk) as [Hname Hin].
    unfold job_facts. simpl.
    destruct (decide (status job = completed)) as [|_]; [done|].
    intuition (try congruence; try lia).
  - unfold job_facts, completed_job. simpl.
    destruct (Hold job eq_refl) as (Hid & _ & _ & _ & _ & _ & _ & Hlo).
    unfold total_rows. intuition (try congruence; try lia).
Qed.

Lemma job_change_identity j job job' :
  job_change j (Some job) job' -> same_identity job job'.
Proof.
  intros Hch. inversion Hch; subst; by repeat split.
Qed.

Lemma module_load_facts o now j job :
  MOCK_JOBS (module_load o now) !! j = Some job -> job_facts j job.
Proof.
  simpl. unfold initializeSampleJobs. intros Hj.
  repeat (apply lookup_insert_Some in Hj as [[<- <-] | [_ Hj]];
          [unfold job_facts, total_rows; simpl;
           repeat split; try done; try lia; try (intros; congruence);
           try (intros [? | ?]; congruence); tauto|]).
  by rewrite lookup_empty in Hj.
Qed.

Lemma run_facts w evs w' :
  world_inv w -> (forall j job, MOCK_JOBS w !! j = Some job -> job_facts j job) ->
  run w evs w' ->
  forall j job, MOCK_JOBS w' !! j = Some job -> job_facts j job.
Proof.
  intros Hinv Hf Hrun. induction Hrun as [w | w ev w1 evs w2 Hstep Hrun IH]; [done|].
  destruct (step_inv w ev w1 Hinv Hstep) as [Hinv1 _].
  apply (IH Hinv1). intros j job Hj.
  apply (job_change_facts j (MOCK_JOBS w !! j)).
  - by apply (step_job_change w ev w1).
  - intros job0 Hj0. by apply Hf.
Qed.

Lemma reachable_facts w j job :
  reachable w -> MOCK_JOBS w !! j = Some job -> job_facts j job.
Proof.
  intros (o & now & evs & Hrun).
  apply (run_facts _ evs w (module_load_inv o now)); [|done].
  apply module_load_facts.
Qed.

End JobChangeFacts.

Section StoreFacts.
Context `{JsRuntime}.

(** X1. The snapshot the status lookup returns for an identifier carries
    that identifier: every job is stored under its own [job_id]. *)
Theorem snapshot_identifier w j s :
  reachable w -> getMockJobStatus w j = Some s -> r_job_id s = j.
Proof.
  intros Hreach Hs. unfold getMockJobStatus in Hs.
  destruct (MOCK_JOBS w !! j) as [job|] eqn:Hjob; [|done].
  injection Hs as <-. simpl. by destruct (reachable_facts w j job Hreach Hjob).
Qed.

(** X2. The counter a poll shows equals [total_rows] exactly when the job is
    completed; until then it is at most 500. *)
Theorem processed_rows_total_iff_completed w j s :
  reachable w -> getMockJobStatus w j = Some s ->
  (r_processed_rows s = r_total_rows s <-> r_status s = completed) /\
  (r_status s <> completed -> r_processed_rows s <= 500).
Proof.
  intros Hreach Hs. unfold getMockJobStatus in Hs.
  destruct (MOCK_JOBS w !! j) as [job|] eqn:Hjob; [|done].
  injection Hs as <-. simpl.
  destruct (reachable_facts w j job Hreach Hjob) as (_ & _ & _ & _ & _ & _ & Hup & _).
  destruct (inv_jobs w (reachable_inv w Hreach) j job Hjob) as (_ & Hc & _).
  unfold total_rows in *. split; [split|done]; [|done].
  intros Heq. destruct (decide (status job = completed)) as [|Hne]; [done|].
  specialize (Hup Hne). lia.
Qed.

(** X3. In every snapshot [completed_at] is null exactly while the job is
    pending or processing, [current_step] is "completed" exactly when the job
    is completed and otherwise one of the five step names, and errors are
    reported only for a completed job. *)
Theorem snapshot_labels w j s :
  reachable w -> getMockJobStatus w j = Some s ->
  (r_completed_at s = None <-> r_status s = pending \/ r_status s = processing) /\
  (r_current_step s = "completed" <-> r_status s = completed) /\
  (r_status s <> completed -> In (r_current_step s) (map step_name steps)) /\
  (r_status s <> completed -> r_error_rows s = 0 /\ r_errors s = []).
Proof.
  intros Hreach Hs. unfold getMockJobStatus in Hs.
  destruct (MOCK_JOBS w !! j) as [job|] eqn:Hjob; [|done].
  injection Hs as <-. simpl.
  destruct (reachable_facts w j job Hreach Hjob) as (_ & Hcur & Hlab & _ & Hca & _).
  repeat split; try tauto.
  - by destruct (decide (status job = completed)).
  - by destruct (decide (status job = completed)).
Qed.

(** X4. No event ever rewrites the identifier, the file name, the file size
    or the start time of a stored job. *)
Theorem job_identity_stable w evs w' j job :
  reachable w -> run w evs w' -> MOCK_JOBS w !! j = Some job ->
  exists job', MOCK_JOBS w' !! j = Some job' /\ same_identity job job'.
Proof.
  intros Hreach Hrun. pose proof (reachable_inv w Hreach) as Hinv. clear Hreach.
  revert job. induction Hrun as [w | w ev w1 evs w2 Hstep Hrun IH]; intros job Hjob.
  - exists job. by repeat split.
  - destruct (step_inv w ev w1 Hinv Hstep) as [Hinv1 Hm].
    destruct (Hm j job Hjob) as (job1 & Hjob1 & _).
    pose proof (step_job_change w ev w1 j job1 Hinv Hstep Hjob1) as Hch.
    rewrite Hjob in Hch. apply job_change_identity in Hch.
    destruct (IH Hinv1 job1 Hjob1) as (job2 & Hjob2 & Hid2).
    exists job2. split; [done|].
    destruct Hch as (? & ? & ? & ?), Hid2 as (? & ? & ? & ?).
    repeat split; congruence.
Qed.

(** X5. Polling stops only on a final snapshot: [refetchInterval] answers
    [false] for a known job exactly when its status is completed or failed,
    and from then on every later poll returns the very same snapshot. *)
Theorem polling_stops_on_final_snapshot interval w j s :
  reachable w -> getMockJobStatus w j = Some s ->
  (refetchInterval interval (Some s) = None <-> terminal (r_status s)) /\
  (refetchInterval interval (Some s) = None ->
   forall evs w', run w evs w' -> getMockJobStatus w' j = Some s).
Proof.
  intros Hreach Hs.
  assert (Hiff : refetchInterval interval (Some s) = None <-> terminal (r_status s)).
  { unfold refetchInterval, terminal. destruct (r_status s); simpl; split;
      intros Hx; try done; try (destruct Hx; done); auto. }
  split; [done|]. intros Hstop evs w' Hrun. apply Hiff in Hstop.
  unfold getMockJobStatus in *.
  destruct (MOCK_JOBS w !! j) as [job|] eqn:Hjob; [|done].
  injection Hs as <-. simpl in Hstop.
  destruct (run_inv w evs w' (reachable_inv w Hreach) Hrun) as [_ Hadv].
  destruct (Hadv j job Hjob) as (job' & Hjob' & _ & Ht).
  by rewrite Hjob', (Ht Hstop).
Qed.

(** X6. An event writes at most the job it belongs to: the jobs and the
    closures stored under every other identifier are left as they were. *)
Theorem event_isolation ev w j :
  event_job ev <> Some j ->
  MOCK_JOBS (apply_event ev w) !! j = MOCK_JOBS w !! j /\
  timers (apply_event ev w) !! j = timers w !! j.
Proof.
  intros Hne. destruct ev as [uuid now request | j0 now | j0 | j0 | q]; simpl in *;
    try done.
  - assert (uuid <> j) by congruence.
    destruct (post_upload_world uuid now request w) as [-> | (f & _ & ->)]; [done|].
    unfold createMockJob, simulateJobProgress. simpl. rewrite lookup_insert_eq. simpl.
    by rewrite !lookup_insert_ne.
  - assert (j0 <> j) by congruence. unfold fire_timeout.
    destruct (timers w !! j0) as [sim|]; [|done].
    destruct (timeout_pending sim); [|done]. unfold processStep.
    destruct (MOCK_JOBS w !! j0); [|simpl; by rewrite lookup_insert_ne].
    destruct (_ <? _)%nat; simpl; by rewrite !lookup_insert_ne.
  - assert (j0 <> j) by congruence. unfold fire_tick.
    destruct (timers w !! j0) as [sim|]; [|done].
    destruct (progressInterval sim); [|done].
    destruct (MOCK_JOBS w !! j0); simpl; by rewrite ?lookup_insert_ne.
Qed.

End StoreFacts.

(** ** Progress display *)

Lemma progress_value p :
  (inject_Z p / inject_Z 508 * 100 == (p * 100) # 508)%Q.
Proof. unfold Qeq, Qdiv, Qmult, Qinv, inject_Z. simpl. lia. Qed.

Section ProgressFacts.
Context `{JsNumberLaws}.

(** X7. The progress the status page computes from a snapshot lies between 0
    and 100, is 100 exactly when the job is completed and is 0 exactly when no
    row has been processed. *)
Theorem progress_of_snapshot w j s :
  reachable w -> getMockJobStatus w j = Some s ->
  let progress :=
    calculateProgress (Some (r_processed_rows s)) (Some (r_total_rows s)) in
  (0 <= progress)%Q /\ (progress <= 100)%Q /\
  ((progress == 100)%Q <-> r_status s = completed) /\
  ((progress == 0)%Q <-> r_processed_rows s = 0).
Proof using All.
  intros Hreach Hs.
  unfold getMockJobStatus in Hs.
  destruct (MOCK_JOBS w !! j) as [job|] eqn:Hjob; [|done].
  injection Hs as <-. simpl in *.
  destruct (reachable_facts w j job Hreach Hjob) as (_ & _ & _ & _ & _ & _ & Hup & Hlo).
  destruct (inv_jobs w (reachable_inv w Hreach) j job Hjob) as (Hb & Hc & _).
  specialize (Hlo _). unfold total_rows in *.
  assert (Hiff : processed_rows job = 508 <-> status job = completed).
  { split; [|done]. intros Heq.
    destruct (decide (status job = completed)) as [|Hne]; [done|].
    specialize (Hup Hne). lia. }
  clear Hc.
  set (p := processed_rows job) in *.
  destruct (Z.eqb_spec p 0) as [Hp0 | Hp0].
  - repeat split; try done;
      try (intros Hx; unfold Qeq in Hx; simpl in Hx; lia);
      try (intros Hx; apply Hiff in Hx; lia).
  - assert (Hmin : (Qmin (inject_Z p / inject_Z 508 * 100) 100 ==
                    Qmin ((p * 100) # 508) 100)%Q).
    { destruct (Q.min_spec (inject_Z p / inject_Z 508 * 100) 100) as [[Hlt ->] | [Hle ->]];
        destruct (Q.min_spec ((p * 100) # 508) 100) as [[Hlt' ->] | [Hle' ->]];
        try apply progress_value; try reflexivity.
      - rewrite progress_value in Hlt. exfalso. by apply (Qlt_not_le _ _ Hlt).
      - rewrite progress_value in Hle. exfalso. by apply (Qlt_not_le _ _ Hlt'). }
    rewrite Hmin.
    destruct (Q.min_spec ((p * 100) # 508) 100) as [[Hlt ->] | [Hle ->]].
    + unfold Qlt, Qle, Qeq in *. simpl in *. repeat split; try lia;
        try (intros Hx; apply Hiff in Hx; lia).
    + unfold Qlt, Qle, Qeq in *. simpl in *. repeat split; try lia;
        try (intros Hx; apply Hiff; lia).
Qed.

End ProgressFacts.

Section TimelineFacts.
Context `{JsRuntime}.

(** X8. For a job that is pending or processing the timeline marks exactly
    one step as current, the one named by [current_step], the steps before it
    as completed and the steps after it as pending; for a completed job every
    step is completed. *)
Theorem timeline_of_snapshot w j s :
  reachable w -> getMockJobStatus w j = Some s ->
  (r_status s = pending \/ r_status s = processing ->
   exists i : nat,
     (i < 5)%nat /\
     fst <$> PROCESSING_STEPS !! i = Some (r_current_step s) /\
     timeline (r_status s) (r_current_step s) =
       (repeat step_completed i ++ step_current :: repeat step_pending (5 - i))%list) /\
  (r_status s = completed ->
   timeline (r_status s) (r_current_step s) = repeat step_completed 6).
Proof.
  intros Hreach Hs.
  assert (Hlab : r_status s <> completed -> In (r_current_step s) (map step_name steps)).
  { unfold getMockJobStatus in Hs.
    destruct (MOCK_JOBS w !! j) as [job|] eqn:Hjob; [|done].
    injection Hs as <-. simpl.
    by destruct (reachable_facts w j job Hreach Hjob) as (_ & _ & Hlab & _). }
  split.
  - intros Hst. assert (Hnc : r_status s <> completed) by (destruct Hst; congruence).
    specialize (Hlab Hnc). simpl in Hlab.
    destruct Hlab as [<- | [<- | [<- | [<- | [<- | []]]]]];
      [exists 0%nat | exists 1%nat | exists 2%nat | exists 3%nat | exists 4%nat];
      (split; [lia|]); (split; [done|]);
      destruct Hst as [-> | ->]; reflexivity.
  - intros ->. reflexivity.
Qed.

End TimelineFacts.

(** ** Retry policy *)

(** X9. A query is retried exactly when it has failed fewer than three
    times and the error is an Axios error that has no response or whose status
    is 408, 429 or at least 500: never for another 4xx status, for a status
    below 400 or for a value that is not an Axios error. *)
Theorem shouldRetry_iff failureCount error :
  shouldRetry failureCount error = true <->
  (failureCount < 3)%nat /\
  exists axiosError, error = reject_axios axiosError /\
    match ax_response axiosError with
    | None => True
    | Some resp =>
        err_status resp = 408 \/ err_status resp = 429 \/ 500 <= err_status resp
    end.
Proof.
  unfold shouldRetry. destruct (Nat.leb_spec 3 failureCount) as [Hge | Hlt].
  - split; [done | intros [? _]; lia].
  - destruct error as [| msg | e].
    + split; [done | intros (_ & e & He & _); discriminate He].
    + split; [done | intros (_ & e & He & _); discriminate He].
    + destruct (ax_response e) as [resp|] eqn:Hresp.
      * destruct (Z.leb_spec 400 (err_status resp)), (Z.ltb_spec (err_status resp) 500),
          (Z.leb_spec 500 (err_status resp)), (Z.eqb_spec (err_status resp) 408),
          (Z.eqb_spec (err_status resp) 429); simpl; try lia.
        all: split; [intros Ht; first [discriminate Ht
                       | split; [done|]; exists e; rewrite Hresp; split; [done | lia]]
                    | intros (_ & e' & [= <-] & Hc); rewrite Hresp in Hc; lia].
      * split; [intros _; split; [done|]; exists e; by rewrite Hresp | done].
Qed.

(** X10. Mutations are retried more sparingly than queries: whenever
    [shouldRetryMutation] answers true it is the first failure and
    [shouldRetry] answers true as well. *)
Theorem mutation_retry_implies_query_retry failureCount error :
  shouldRetryMutation failureCount error = true ->
  failureCount = 0%nat /\ shouldRetry failureCount error = true.
Proof.
  unfold shouldRetryMutation, shouldRetry.
  destruct (Nat.leb_spec 1 failureCount) as [|Hlt]; [done|].
  assert (failureCount = 0%nat) as -> by lia. intros Hm. split; [done|].
  cbn [Nat.leb]. destruct error as [| msg | e]; try done.
  destruct (ax_response e) as [resp|]; [|done].
  destruct (Z.eqb_spec (err_status resp) 502), (Z.eqb_spec (err_status resp) 503),
    (Z.eqb_spec (err_status resp) 504); simpl in Hm; try done;
    destruct (Z.leb_spec 400 (err_status resp)), (Z.ltb_spec (err_status resp) 500),
      (Z.leb_spec 500 (err_status resp)); simpl; try done; lia.
Qed.

(** X11. An error that went through the response interceptor is retried
    only if the request never left: once there is a response (whatever its
    status) or a request without response, the interceptor rejects with a plain
    [Error] and neither [shouldRetry] nor [shouldRetryMutation] retries it. *)
Theorem intercepted_error_retry failureCount error :
  (shouldRetry failureCount (on_response_error error) = true <->
   (failureCount < 3)%nat /\ ax_response error = None /\ ax_request error = false) /\
  (shouldRetryMutation failureCount (on_response_error error) = true <->
   failureCount = 0%nat /\ ax_response error = None /\ ax_request error = false).
Proof.
  unfold on_response_error, shouldRetry, shouldRetryMutation.
  destruct (ax_response error) as [resp|] eqn:Hresp.
  - destruct (3 <=? failureCount)%nat, (1 <=? failureCount)%nat;
      split; split; (done || intros (_ & Hx & _); discriminate Hx).
  - destruct (ax_request error) eqn:Hreq.
    + destruct (3 <=? failureCount)%nat, (1 <=? failureCount)%nat;
        split; split; (done || intros (_ & _ & Hx); discriminate Hx).
    + rewrite Hresp.
      destruct (Nat.leb_spec 3 failureCount), (Nat.leb_spec 1 failureCount);
        split; split; try done; try (intros [? _]; lia); try (intros _; repeat split; lia).
Qed.

(** X12. Both retry delays start at their base (1000 ms for queries, 2000 ms
    for mutations), double with every attempt and stop at their ceiling: they
    never decrease and stay within [1000, 30000] for queries and
    [2000, 10000] for mutations. *)
Theorem retry_delays attemptIndex :
  getRetryDelay 0 = 1000 /\ getMutationRetryDelay 0 = 2000 /\
  1000 <= getRetryDelay attemptIndex <= 30000 /\
  getRetryDelay (S attemptIndex) = Z.min (2 * getRetryDelay attemptIndex) 30000 /\
  getRetryDelay attemptIndex <= getRetryDelay (S attemptIndex) /\
  2000 <= getMutationRetryDelay attemptIndex <= 10000 /\
  getMutationRetryDelay (S attemptIndex) =
    Z.min (2 * getMutationRetryDelay attemptIndex) 10000 /\
  getMutationRetryDelay attemptIndex <= getMutationRetryDelay (S attemptIndex).
Proof.
  split; [done|]. split; [done|].
  unfold getRetryDelay, getMutationRetryDelay.
  rewrite Nat2Z.inj_succ, Z.pow_succ_r by lia.
  pose proof (Z.pow_pos_nonneg 2 (Z.of_nat attemptIndex) ltac:(lia) ltac:(lia)) as Hpos.
  set (x := 2 ^ Z.of_nat attemptIndex) in *. lia.
Qed.

(** ** Client-side validation *)

(** X13. [validateFile] accepts a file exactly when its MIME type is one of
    the two Excel types and its size is at most the limit (a file of exactly
    the limit passes); a wrong type is reported before an excessive size. *)
Theorem validateFile_spec max_mb file :
  (validateFile max_mb file = None <->
   In (file_type file) VALID_EXCEL_TYPES /\
   size (as_File file) <= max_mb * 1024 * 1024) /\
  (~ In (file_type file) VALID_EXCEL_TYPES ->
   validateFile max_mb file = Some "Only .xlsx and .xls files are supported").
Proof.
  unfold validateFile.
  destruct (existsb (String.eqb (file_type file)) VALID_EXCEL_TYPES) eqn:Hex.
  - apply existsb_exists in Hex as (t & Hin & Heq). apply String.eqb_eq in Heq.
    subst t. simpl negb. cbv iota.
    destruct (Z.ltb_spec (max_mb * 1024 * 1024) (size (as_File file))).
    + split; [split; [done | intros [_ ?]; lia] | done].
    + split; [split; [done | done] | done].
  - simpl. split; [split; [done|] | done].
    intros [Hin _]. assert (Ht : existsb (String.eqb (file_type file)) VALID_EXCEL_TYPES = true).
    { apply existsb_exists. exists (file_type file). split; [done | apply String.eqb_refl]. }
    congruence.
Qed.

Section ValidationAgreement.
Context `{JsRuntime}.

(** X14. For a file whose MIME type and whose extension are both Excel, the
    client-side check with the default limit of 10 MB passes exactly when the
    upload endpoint answers 200: the two size limits agree. *)
Theorem client_and_endpoint_agree uuid now file w :
  In (file_type file) VALID_EXCEL_TYPES ->
  endsWith (file_name (as_File file)) ".xlsx" = true \/
  endsWith (file_name (as_File file)) ".xls" = true ->
  (validateFile 10 file = None <->
   http_status (fst (post_upload uuid now (FormData (entry_file (as_File file))) w)) = 200).
Proof.
  intros Htype Hname. unfold validateFile, post_upload.
  assert (Hex : existsb (String.eqb (file_type file)) VALID_EXCEL_TYPES = true).
  { apply existsb_exists. exists (file_type file). split; [done | apply String.eqb_refl]. }
  rewrite Hex. cbn [negb].
  assert (Hsuffix : negb (endsWith (file_name (as_File file)) ".xlsx") &&
                    negb (endsWith (file_name (as_File file)) ".xls") = false).
  { destruct Hname as [-> | ->]; [done | apply andb_false_r]. }
  rewrite Hsuffix.
  change (10 * 1024 * 1024) with 10485760.
  destruct (10485760 <? size (as_File file)); [done|].
  by destruct (createMockJob _ _ _ _ _).
Qed.

End ValidationAgreement.

(** ** Relative times *)

Lemma div_ge_1_iff a b : 0 < b -> (1 <=? a / b) = true <-> b <= a.
Proof.
  intros Hb. rewrite Z.leb_le. split.
  - intros Hq. pose proof (Z.mul_div_le a b Hb). nia.
  - intros Hle. apply Z.div_le_lower_bound; lia.
Qed.

(** The loop returns the first entry that fits, and none before it fits. *)
Lemma first_interval_spec diff entries :
  Forall (fun e => 0 < snd e) entries ->
  match first_interval diff entries with
  | Some (k, u) =>
      exists s before after,
        entries = (before ++ (u, s) :: after)%list /\ k = diff / s /\ s <= diff /\
        Forall (fun e => diff < snd e) before
  | None => Forall (fun e => diff < snd e) entries
  end.
Proof.
  induction 1 as [|[u s] entries Hs Hall IH]; simpl; [constructor|].
  simpl in Hs. destruct (1 <=? diff / s) eqn:Hfit.
  - apply div_ge_1_iff in Hfit; [|done].
    exists s, [], entries. by repeat split.
  - assert (Hlt : diff < s).
    { destruct (Z.lt_ge_cases diff s) as [|Hge]; [done|].
      apply (div_ge_1_iff diff s Hs) in Hge. congruence. }
    destruct (first_interval diff entries) as [[k u']|].
    + destruct IH as (s' & before & after & -> & -> & Hle & Hbefore).
      exists s', ((u, s) :: before), after. repeat split; [done|].
      by constructor.
    + by constructor.
Qed.

Section RelativeTimeFacts.
Context `{IntlRuntime}.

(** X15. [formatRelativeTime] answers the empty string for a missing date;
    for a valid date less than a minute old, or in the future, it answers
    "just now"; otherwise it expresses the age in the largest of year, month,
    week, day, hour and minute that fits at least once, rounded down. *)
Theorem formatRelativeTime_largest_unit now prefix :
  formatRelativeTime now None prefix = "" /\
  formatRelativeTime now (Some "") prefix = "" /\
  forall dateString date,
    dateString <> "" -> Date_parse dateString = Some date ->
    let diff := (now - date) / 1000 in
    (diff < 60 ->
     formatRelativeTime now (Some dateString) prefix = with_prefix prefix "just now") /\
    (60 <= diff ->
     exists unit0 seconds,
       In (unit0, seconds) intervals /\ seconds <= diff /\
       (forall unit1 seconds1,
          In (unit1, seconds1) intervals -> seconds1 <= diff -> seconds1 <= seconds) /\
       formatRelativeTime now (Some dateString) prefix =
       with_prefix prefix (relative_format (- (diff / seconds)) unit0)).
Proof.
  split; [done|]. split; [done|]. intros dateString date Hne Hdate diff.
  assert (Hform : formatRelativeTime now (Some dateString) prefix =
                  match first_interval diff intervals with
                  | Some (interval, unit0) =>
                      with_prefix prefix (relative_format (- interval) unit0)
                  | None => with_prefix prefix "just now"
                  end).
  { unfold formatRelativeTime. cbn [truthy default from_option Datatypes.id].
    apply String.eqb_neq in Hne. rewrite Hne. cbn [negb]. by rewrite Hdate. }
  assert (Hpos : Forall (fun e : string * Z => 0 < snd e) intervals).
  { unfold intervals. repeat constructor. }
  pose proof (first_interval_spec diff intervals Hpos) as Hspec.
  rewrite Hform. destruct (first_interval diff intervals) as [[k u]|].
  - destruct Hspec as (s0 & before & after & Heq & -> & Hle & Hbefore). split.
    + intros Hlt. exfalso.
      assert (Hin : In (u, s0) intervals) by (rewrite Heq; apply in_elt).
      unfold intervals in Hin. simpl in Hin.
      repeat (destruct Hin as [[= <- <-] | Hin]; [lia|]). done.
    + intros _. exists u, s0. split; [rewrite Heq; apply in_elt|].
      split; [done|]. split; [|done].
      intros u1 s1 Hin1 Hle1. rewrite Heq in Hin1.
      apply in_app_or in Hin1 as [Hin1 | [[= <- <-] | Hin1]]; [| lia |].
      * rewrite List.Forall_forall in Hbefore. specialize (Hbefore _ Hin1). simpl in Hbefore. lia.
      * (* the entries after the chosen one are smaller *)
        clear -Heq Hin1. unfold intervals in Heq.
        repeat (destruct before as [|[? ?] before];
                [injection Heq as <- <- <-; simpl in Hin1;
                 repeat (destruct Hin1 as [[= <- <-] | Hin1]; [lia|]); done
                | injection Heq as ? ? Heq; subst]).
        by destruct before.
  - split; [done|]. intros Hge. exfalso.
    rewrite List.Forall_forall in Hspec.
    specialize (Hspec ("minute", 60)). simpl in Hspec.
    assert (diff < 60) by (apply Hspec; unfold intervals; simpl; tauto). lia.
Qed.

End RelativeTimeFacts.

(** ** Log sanitising *)

Section SanitizeFacts.
Context `{JsRuntime}.

Lemma redact_redact prop : redact (redact prop) = redact prop.
Proof.
  unfold redact. destruct (is_sensitive (fst prop)) eqn:Hs; simpl; by rewrite Hs.
Qed.

Lemma is_sensitive_iff key :
  is_sensitive key = true <-> In (toLowerCase key) sensitiveFields.
Proof.
  unfold is_sensitive. rewrite existsb_exists. split.
  - intros (x & Hin & Heq). apply String.eqb_eq in Heq. by subst.
  - intros Hin. exists (toLowerCase key). split; [done | apply String.eqb_refl].
Qed.

(** X16. [sanitize] keeps the properties of an object and their order,
    replaces the value of each property whose name, lowered by the host's
    [toLowerCase], is password, token, authorization or cookie by
    "[REDACTED]", returns every other value as it is, nested objects included,
    and sanitising twice changes nothing more. *)
Theorem sanitize_object props :
  exists props',
    sanitize (JObj props) = JObj props' /\
    map fst props' = map fst props /\
    (forall (i : nat) key value,
       props !! i = Some (key, value) ->
       (In (toLowerCase key) sensitiveFields ->
        props' !! i = Some (key, JStr "[REDACTED]")) /\
       (~ In (toLowerCase key) sensitiveFields ->
        props' !! i = Some (key, value))) /\
    sanitize (sanitize (JObj props)) = sanitize (JObj props).
Proof.
  exists (map redact props). split; [done|]. split; [|split].
  - rewrite map_map. apply map_ext. intros [key value]. unfold redact. simpl.
    by destruct (is_sensitive key).
  - intros i key value Hi.
    change (map redact props) with (redact <$> props).
    rewrite list_lookup_fmap, Hi. simpl. unfold redact. simpl.
    pose proof (is_sensitive_iff key) as Hiff.
    destruct (is_sensitive key); split; intros Hin; try done.
    + exfalso. apply Hin. by apply Hiff.
    + apply Hiff in Hin. discriminate Hin.
  - simpl. f_equal. rewrite map_map. apply map_ext. apply redact_redact.
Qed.

End SanitizeFacts.

(** ** Pagination *)

Lemma slice_nat {A} (l : list A) (a b : nat) :
  slice l (Z.of_nat a) (Z.of_nat a + Z.of_nat b) = firstn b (skipn a l).
Proof.
  rewrite slice_between by lia. unfold between. rewrite between_from_firstn.
  f_equal; [lia | f_equal; lia].
Qed.

Lemma In_take {A} (l : list A) n x : In x (firstn n l) -> In x l.
Proof.
  intros Hin. rewrite <- (firstn_skipn n l). apply in_or_app. by left.
Qed.

Lemma In_drop {A} (l : list A) n x : In x (skipn n l) -> In x l.
Proof.
  intros Hin. rewrite <- (firstn_skipn n l). apply in_or_app. by right.
Qed.

Lemma slice_In {A} (l : list A) a b x : In x (slice l a b) -> In x l.
Proof.
  unfold slice. intros Hin. by apply In_take, In_drop in Hin.
Qed.

(** The pages 1 to [n] of size [s], one after the other, are the first
    [n * s] elements. *)
Lemma pages_concat {A} (l : list A) (s n : nat) :
  concat (map (fun p : nat =>
                 slice l ((Z.of_nat p - 1) * Z.of_nat s)
                         ((Z.of_nat p - 1) * Z.of_nat s + Z.of_nat s))
              (seq 1 n))
  = firstn (n * s) l.
Proof.
  induction n as [|n IH]; [done|].
  rewrite seq_S, map_app, concat_app, IH. simpl.
  replace ((Z.of_nat (S n) - 1) * Z.of_nat s) with (Z.of_nat (n * s)) by lia.
  rewrite slice_nat, app_nil_r. rewrite take_take_drop. f_equal. lia.
Qed.

Section PaginationFacts.
Context `{JsRuntime}.

(** The listing of the employees for the page [p] of size [s]: a slice of
    the employees that pass the filters, sorted. *)
Lemma filterEmployees_slice w srt ord sch dep :
  let all :=
    Array_sort (compareEmployees (default "employee_id" srt) (default "asc" ord))
      (List.filter (passes sch dep) (MOCK_EMPLOYEES w)) in
  forall p s,
    let r := filterEmployees w {|
      page := Some p; page_size := Some s; sort_by := srt; order := ord;
      search := sch; department := dep |} in
    employees r = slice all ((p - 1) * s) ((p - 1) * s + s) /\
    total r = Z.of_nat (length all) /\
    total_pages r = ceil_div (Z.of_nat (length all)) s.
Proof.
  intros all p s. subst all. unfold filterEmployees. cbv zeta.
  cbn [page page_size sort_by order search department default from_option Datatypes.id
       employees total total_pages].
  assert (Hf :
    (if truthy dep
     then List.filter (fun emp => String.eqb (department_name emp) (default "" dep))
            (if truthy sch
             then List.filter (search_matches (toLowerCase (default "" sch)))
                    (MOCK_EMPLOYEES w)
             else MOCK_EMPLOYEES w)
     else (if truthy sch
           then List.filter (search_matches (toLowerCase (default "" sch)))
                  (MOCK_EMPLOYEES w)
           else MOCK_EMPLOYEES w))
    = List.filter (passes sch dep) (MOCK_EMPLOYEES w)).
  { unfold passes. destruct (truthy sch), (truthy dep); cbn [negb orb].
    - by rewrite filter_filter_and.
    - apply filter_ext. intros e. by rewrite andb_true_r.
    - done.
    - symmetry. apply forallb_filter_id. by apply forallb_forall. }
  cbn [default from_option Datatypes.id] in Hf. rewrite Hf. done.
Qed.

(** X17. Paging loses and repeats nothing: for a page size [s >= 1] the
    pages 1 to [total_pages] of the employee listing, one after the other, are
    the employees of the table that pass the search and department filters,
    sorted by the comparator of the listing; [total] is their number on every
    page, [total_pages] is the least number of pages of size [s] that hold
    them, every page has at most [s] employees and every page after
    [total_pages] is empty. *)
Theorem employee_pages_cover w (s : nat) srt ord sch dep :
  (1 <= s)%nat ->
  let listing p := filterEmployees w {|
    page := Some (Z.of_nat p); page_size := Some (Z.of_nat s);
    sort_by := srt; order := ord; search := sch; department := dep |} in
  let passing := List.filter (passes sch dep) (MOCK_EMPLOYEES w) in
  exists n : nat,
    (forall p : nat, total_pages (listing p) = Finite (Z.of_nat n)) /\
    (forall p : nat, total (listing p) = Z.of_nat (length passing)) /\
    (length passing <= n * s < length passing + s)%nat /\
    concat (map (fun p : nat => employees (listing p)) (seq 1 n))
    = Array_sort (compareEmployees (default "employee_id" srt) (default "asc" ord))
        passing /\
    (forall p : nat, (length (employees (listing p)) <= s)%nat) /\
    (forall p : nat, (n < p)%nat -> employees (listing p) = []).
Proof.
  intros Hs listing passing. subst listing passing.
  pose proof (filterEmployees_slice w srt ord sch dep) as Hall. cbv zeta in Hall.
  set (passing := List.filter (passes sch dep) (MOCK_EMPLOYEES w)) in *.
  set (all := Array_sort _ passing) in *.
  assert (Hlen : length all = length passing)
    by apply (Permutation_length (Array_sort_Permutation _ _)).
  rewrite <- Hlen.
  set (len := length all).
  assert (Hn : exists n : nat, - (- Z.of_nat len / Z.of_nat s) = Z.of_nat n /\
                               (len <= n * s)%nat /\ (n * s < len + s)%nat).
  { pose proof (Z.div_mod (- Z.of_nat len) (Z.of_nat s) ltac:(lia)) as Hdm.
    pose proof (Z.mod_pos_bound (- Z.of_nat len) (Z.of_nat s) ltac:(lia)) as Hb.
    exists (Z.to_nat (- (- Z.of_nat len / Z.of_nat s))). nia. }
  destruct Hn as (n & Hceil & Hcover & Hlast). exists n. unfold len in *. clear len.
  split; [|split; [|split; [|split; [|split]]]].
  - intros p. destruct (Hall (Z.of_nat p) (Z.of_nat s)) as (_ & _ & ->).
    unfold ceil_div. destruct (Z.eqb_spec (Z.of_nat s) 0); [lia|].
    by rewrite Hceil.
  - intros p. by destruct (Hall (Z.of_nat p) (Z.of_nat s)) as (_ & -> & _).
  - lia.
  - erewrite map_ext; [|intros p; by destruct (Hall (Z.of_nat p) (Z.of_nat s)) as (-> & _)].
    rewrite pages_concat. by rewrite take_ge by lia.
  - intros p. destruct (Hall (Z.of_nat p) (Z.of_nat s)) as (-> & _).
    destruct p as [|p].
    + unfold slice. rewrite length_take.
      destruct (Z.ltb_spec ((Z.of_nat 0 - 1) * Z.of_nat s) 0);
        destruct (Z.ltb_spec ((Z.of_nat 0 - 1) * Z.of_nat s + Z.of_nat s) 0); lia.
    + replace ((Z.of_nat (S p) - 1) * Z.of_nat s) with (Z.of_nat (p * s)) by lia.
      rewrite slice_nat, length_take. lia.
  - intros p Hp. destruct (Hall (Z.of_nat p) (Z.of_nat s)) as (-> & _).
    destruct p as [|p]; [lia|].
    replace ((Z.of_nat (S p) - 1) * Z.of_nat s) with (Z.of_nat (p * s)) by lia.
    rewrite slice_nat. rewrite drop_ge; [by rewrite firstn_nil | nia].
Qed.

End PaginationFacts.

(** ** The jobs listing *)

Lemma filter_map_length {A B} (f : B -> bool) (g : A -> B) l :
  length (List.filter f (map g l)) = length (List.filter (fun x => f (g x)) l).
Proof.
  induction l as [|x l IH]; simpl; [done|]. destruct (f (g x)); simpl; by rewrite IH.
Qed.

Section JobsListingFacts.
Context `{JsRuntime}.

Lemma getJobsList_In values params item :
  In item (jobs (getJobsList values params)) ->
  exists mockJob, In mockJob values /\ item = Job_of_MockJob mockJob /\
    (truthy (jobs_status params) = true ->
     JobStatus_str (status mockJob) = default "" (jobs_status params)).
Proof.
  unfold getJobsList. cbv zeta. cbn [jobs]. intros Hin%slice_In.
  apply (Permutation_in _ (Array_sort_Permutation _ _)) in Hin.
  destruct (truthy (jobs_status params)).
  - apply filter_In in Hin as [Hin Hst]. apply in_map_iff in Hin as (mj & <- & Hmj).
    exists mj. repeat split; [done|]. intros _. by apply String.eqb_eq in Hst.
  - apply in_map_iff in Hin as (mj & <- & Hmj). exists mj. by repeat split.
Qed.

(** X18. The jobs listing and the status endpoint tell the same story: every
    job of a page of the listing is a stored job, and its status, step, row
    counters and timestamps are those the status lookup returns for its
    identifier; its successful rows are its employee count, and successful and
    error rows add up to the total for a completed job and are both zero
    otherwise. *)
Theorem jobs_list_agrees_with_status w values params item :
  reachable w -> enumerates values w ->
  In item (jobs (getJobsList values params)) ->
  exists s, getMockJobStatus w (l_job_id item) = Some s /\
    l_filename item = r_filename s /\ l_status item = r_status s /\
    l_current_step item = r_current_step s /\ l_total_rows item = r_total_rows s /\
    l_processed_rows item = r_processed_rows s /\ l_error_rows item = r_error_rows s /\
    l_started_at item = r_started_at s /\ l_completed_at item = r_completed_at s /\
    l_successful_rows item = l_employee_count item /\
    l_error_rows item + l_successful_rows item =
      (if decide (l_status item = completed) then l_total_rows item else 0).
Proof.
  intros Hreach Henum Hin.
  apply getJobsList_In in Hin as (mj & Hmj & -> & _).
  apply (Permutation_in _ Henum) in Hmj.
  apply in_map_iff in Hmj as ([k mj'] & Heq & Hk). simpl in Heq. subst mj'.
  apply list_elem_of_In, elem_of_map_to_list in Hk.
  destruct (reachable_facts w k mj Hreach Hk) as (Hid & _ & _ & _ & _ & Hec & _).
  unfold getMockJobStatus. cbn [Job_of_MockJob l_job_id]. rewrite Hid, Hk.
  eexists. split; [done|]. simpl. rewrite Hec. unfold total_rows.
  destruct (decide (status mj = completed)); repeat split; simpl; lia.
Qed.

(** X19. With a status filter the jobs listing holds only jobs of that
    status and counts all of them; a status that is none of the four yields an
    empty listing; without a filter every stored job is counted. *)
Theorem jobs_status_filter values params :
  let r := getJobsList values params in
  (forall st, jobs_status params = Some st -> st <> "" ->
     (forall item, In item (jobs r) -> JobStatus_str (l_status item) = st) /\
     jobs_total r =
       Z.of_nat (length (List.filter
                   (fun mockJob => String.eqb (JobStatus_str (status mockJob)) st)
                   values)) /\
     ((forall known, JobStatus_str known <> st) -> jobs_total r = 0 /\ jobs r = [])) /\
  (truthy (jobs_status params) = false -> jobs_total r = Z.of_nat (length values)).
Proof.
  intros r. split.
  - intros st Hst Hne.
    assert (Ht : truthy (jobs_status params) = true).
    { rewrite Hst. simpl. by apply String.eqb_neq in Hne as ->. }
    assert (Htot : jobs_total r =
       Z.of_nat (length (List.filter
                   (fun mockJob => String.eqb (JobStatus_str (status mockJob)) st)
                   values))).
    { subst r. unfold getJobsList. cbv zeta. cbn [jobs_total]. rewrite Ht, Hst.
      rewrite (Permutation_length (Array_sort_Permutation _ _)).
      by rewrite filter_map_length. }
    split; [|split; [done|]].
    + intros item Hin. apply getJobsList_In in Hin as (mj & _ & -> & Hmatch).
      specialize (Hmatch Ht). by rewrite Hst in Hmatch.
    + intros Hunknown.
      assert (Hnil : forall l : list MockJob, List.filter
                (fun mockJob => String.eqb (JobStatus_str (status mockJob)) st) l = []).
      { induction l as [|mj l IH]; [done|]. simpl.
        destruct (String.eqb_spec (JobStatus_str (status mj)) st) as [Heq|_]; [|done].
        by destruct (Hunknown (status mj)). }
      split; [by rewrite Htot, Hnil|].
      destruct (jobs r) as [|item rest] eqn:Hjobs; [done|]. exfalso.
      assert (Hin : In item (jobs r)) by (rewrite Hjobs; by left).
      apply getJobsList_In in Hin as (mj & _ & -> & Hmatch).
      specialize (Hmatch Ht). rewrite Hst in Hmatch. by apply (Hunknown (status mj)).
  - intros Hf. subst r. unfold getJobsList. cbv zeta. cbn [jobs_total]. rewrite Hf.
    rewrite (Permutation_length (Array_sort_Permutation _ _)). by rewrite length_map.
Qed.

End JobsListingFacts.

(** ** The URL parser *)

Lemma split_char_cons c s : exists h t, split_char c s = h :: t.
Proof.
  destruct s as [|d s]; simpl; [by eexists _, _|].
  destruct (Ascii.eqb d c); [by eexists _, _|].
  destruct (split_char c s); by eexists _, _.
Qed.

Lemma hd_split_char c s : hd "" (split_char c s) = split_head c s.
Proof.
  induction s as [|d s IH]; simpl; [done|].
  destruct (Ascii.eqb d c); [done|].
  destruct (split_char_cons c s) as (h & t & Heq). rewrite Heq in *. simpl in *.
  by rewrite IH.
Qed.

Lemma has_char_split_head c s : has_char c (split_head c s) = false.
Proof.
  induction s as [|d s IH]; simpl; [done|].
  destruct (Ascii.eqb d c) eqn:Hd; [done|]. simpl. by rewrite Hd.
Qed.

Lemma prefix_split_head c s : String.prefix (split_head c s) s = true.
Proof.
  induction s as [|d s IH]; simpl; [done|].
  destruct (Ascii.eqb d c); [done|]. simpl. by destruct (ascii_dec d d).
Qed.

Lemma includes_has_char c s : includes s (String c "") = has_char c s.
Proof.
  induction s as [|d s IH]; [done|].
  cbn [includes has_char String.prefix]. rewrite IH.
  destruct (ascii_dec c d) as [<- | Hne].
  - rewrite Ascii.eqb_refl. by destruct s.
  - apply not_eq_sym, Ascii.eqb_neq in Hne. rewrite Hne. done.
Qed.

Lemma has_char_app c a b : has_char c (a ++ b) = has_char c a || has_char c b.
Proof.
  induction a as [|d a IH]; simpl; [done|]. rewrite IH. by rewrite orb_assoc.
Qed.

Lemma string_app_assoc (a b c : string) : a ++ (b ++ c) = (a ++ b) ++ c.
Proof.
  induction a as [|d a IH]; [done|].
  change (String d (a ++ (b ++ c)) = String d ((a ++ b) ++ c)). by rewrite IH.
Qed.

Lemma split_char_plain c a : has_char c a = false -> split_char c a = [a].
Proof.
  induction a as [|d a IH]; simpl; [done|].
  destruct (Ascii.eqb d c); [done|]. simpl. intros Ha. by rewrite (IH Ha).
Qed.

Lemma split_char_app c a b :
  has_char c a = false -> split_char c (a ++ String c b) = a :: split_char c b.
Proof.
  induction a as [|d a IH]; simpl.
  - intros _. by rewrite Ascii.eqb_refl.
  - destruct (Ascii.eqb d c); [done|]. simpl. intros Ha. by rewrite (IH Ha).
Qed.

Lemma split_head_plain c s : has_char c s = false -> split_head c s = s.
Proof.
  induction s as [|d s IH]; simpl; [done|].
  destruct (Ascii.eqb d c); [done|]. simpl. intros Hs. by rewrite (IH Hs).
Qed.

Section ParseUrlFacts.
Context `{UriRuntime}.

(** X20. The path [parseUrl] returns is the part of the URL before its
    first question mark: it contains none, it is a prefix of the URL, and a URL
    without a question mark is its own path and has an empty query. *)
Theorem parseUrl_path url r :
  parseUrl url = Some r ->
  has_char "?" (url_path r) = false /\
  String.prefix (url_path r) url = true /\
  url_params r = ∅ /\
  (has_char "?" url = false -> url_path r = url /\ url_query r = ∅).
Proof.
  unfold parseUrl. rewrite hd_split_char, includes_has_char.
  destruct (has_char "?" url) eqn:Hq.
  - destruct (if negb _ then _ else _) as [query|]; [|done].
    intros [= <-]. simpl.
    by rewrite has_char_split_head, prefix_split_head.
  - simpl. intros [= <-]. simpl.
    rewrite has_char_split_head, prefix_split_head.
    repeat split; try done. by apply split_head_plain.
Qed.

Lemma add_param_pair query k v k' v' :
  k <> "" -> has_char "=" k = false -> has_char "=" v = false ->
  decodeURIComponent k = Some k' -> decodeURIComponent v = Some v' ->
  add_param (Some query) (k ++ String "=" v) = Some (assign query k' v').
Proof.
  intros Hk Hke Hve Hdk Hdv. unfold add_param.
  rewrite (split_char_app "=" k v Hke), (split_char_plain "=" v Hve).
  apply String.eqb_neq in Hk. rewrite Hk. simpl. by rewrite Hdk, Hdv.
Qed.

Lemma split_query_string pairs :
  Forall (fun kv => plain (fst kv) /\ plain (snd kv)) pairs ->
  pairs <> [] ->
  split_char "&" (query_string pairs) =
  map (fun kv => fst kv ++ String "=" (snd kv)) pairs /\
  has_char "?" (query_string pairs) = false.
Proof.
  induction 1 as [|[k v] rest [(Hkq & Hka & Hke) (Hvq & Hva & Hve)] Hall IH];
    [done|]. intros _. simpl in *.
  destruct rest as [|kv rest].
  - split.
    + apply split_char_plain. change (k ++ "=" ++ v) with (k ++ String "=" v).
      rewrite has_char_app. simpl. by rewrite Hka, Hva.
    + change (k ++ "=" ++ v) with (k ++ String "=" v).
      rewrite has_char_app. simpl. by rewrite Hkq, Hvq.
  - destruct (IH ltac:(done)) as [IHs IHq].
    set (tail := query_string (kv :: rest)) in *.
    change (k ++ "=" ++ v ++ "&" ++ tail) with (k ++ String "=" (v ++ String "&" tail)).
    split.
    + rewrite <- IHs.
      change (String "=" (v ++ String "&" tail)) with (String "=" v ++ String "&" tail).
      rewrite string_app_assoc.
      apply split_char_app. rewrite has_char_app. simpl. by rewrite Hka, Hva.
    + rewrite has_char_app. simpl. rewrite has_char_app. simpl.
      by rewrite Hkq, Hvq, IHq.
Qed.

Lemma fold_add_param pairs decoded query :
  Forall (fun kv => fst kv <> "" /\ plain (fst kv) /\ plain (snd kv)) pairs ->
  Forall2 (fun kv kv' => decodeURIComponent (fst kv) = Some (fst kv') /\
                         decodeURIComponent (snd kv) = Some (snd kv'))
          pairs decoded ->
  fold_left add_param (map (fun kv => fst kv ++ String "=" (snd kv)) pairs) (Some query)
  = Some (fold_left (fun q kv' => assign q (fst kv') (snd kv')) decoded query).
Proof.
  intros Hall Hdec. revert query.
  induction Hdec as [|[k v] [k' v'] pairs decoded [Hdk Hdv] Hdec IH]; intros query;
    [done|].
  apply Forall_cons in Hall as [(Hk & (_ & _ & Hke) & (_ & _ & Hve)) Hall].
  cbn [map fold_left fst snd] in *.
  rewrite (add_param_pair query k v k' v'); try done.
  by apply IH.
Qed.

(** X21. [parseUrl] reads back what a well-formed URL was built from: for a
    path without question mark and pairs of plain keys and values (no [?], [&]
    or [=], keys not empty), the URL [path?k1=v1&...&kn=vn] parses to that path
    and to the query that maps each decoded key to its decoded value, a later
    pair overriding an earlier one with the same key; a pair whose decoded key
    is [__proto__] leaves no entry. *)
Theorem parseUrl_round_trip pth pairs decoded :
  has_char "?" pth = false ->
  Forall (fun kv => fst kv <> "" /\ plain (fst kv) /\ plain (snd kv)) pairs ->
  Forall2 (fun kv kv' => decodeURIComponent (fst kv) = Some (fst kv') /\
                         decodeURIComponent (snd kv) = Some (snd kv'))
          pairs decoded ->
  parseUrl (pth ++ String "?" (query_string pairs)) =
  Some {| url_path := pth; url_params := ∅;
          url_query :=
            fold_left (fun q kv' =>
                         if String.eqb (fst kv') "__proto__" then q
                         else <[fst kv' := snd kv']> q) decoded ∅ |}.
Proof.
  intros Hpth Hall Hdec. unfold parseUrl.
  rewrite hd_split_char, includes_has_char, has_char_app. simpl.
  rewrite orb_true_r.
  assert (Hhead : split_head "?" (pth ++ String "?" (query_string pairs)) = pth).
  { rewrite <- hd_split_char. by rewrite split_char_app. }
  rewrite Hhead. rewrite (split_char_app "?" pth _ Hpth).
  destruct pairs as [|kv pairs].
  - apply Forall2_nil_inv_l in Hdec as ->. done.
  - assert (Hplain : Forall (fun kv => plain (fst kv) /\ plain (snd kv)) (kv :: pairs)).
    { eapply Forall_impl; [exact Hall|]. simpl. tauto. }
    destruct (split_query_string (kv :: pairs) Hplain ltac:(done)) as [Hsplit Hq].
    rewrite (split_char_plain "?" _ Hq). cbn [nth].
    assert (Hne : String.eqb (query_string (kv :: pairs)) "" = false).
    { apply String.eqb_neq. intros Hempty.
      apply Forall_cons in Hall as [(Hk & _) _]. destruct kv as [k v]. simpl in *.
      destruct k as [|c k]; [done|]. by destruct pairs. }
    rewrite Hne. cbn [negb]. rewrite Hsplit, (fold_add_param _ decoded ∅ Hall Hdec).
    done.
Qed.

End ParseUrlFacts.

(** ** Independence of the jobs *)

Lemma put_nothing w : put "" None None w = w.
Proof. by destruct w. Qed.

Lemma put_commute j1 j2 oj1 ot1 oj2 ot2 w :
  j1 <> j2 ->
  put j1 oj1 ot1 (put j2 oj2 ot2 w) = put j2 oj2 ot2 (put j1 oj1 ot1 w).
Proof.
  intros Hne. unfold put. simpl. f_equal.
  - destruct oj1, oj2; try done. by apply insert_insert_ne.
  - destruct ot1, ot2; try done. by apply insert_insert_ne.
Qed.

Lemma put_lookup j1 j2 oj ot w :
  j1 <> j2 ->
  MOCK_JOBS (put j2 oj ot w) !! j1 = MOCK_JOBS w !! j1 /\
  timers (put j2 oj ot w) !! j1 = timers w !! j1.
Proof.
  intros Hne. unfold put. simpl. split.
  - destruct oj; [by rewrite lookup_insert_ne|done].
  - destruct ot; [by rewrite lookup_insert_ne|done].
Qed.

Section Independence.
Context `{JsRuntime}.

(** What an event writes depends only on what is stored under its own
    identifier. *)
Lemma event_local ev j w :
  event_job ev = Some j ->
  exists oj ot, forall w',
    MOCK_JOBS w' !! j = MOCK_JOBS w !! j -> timers w' !! j = timers w !! j ->
    apply_event ev w' = put j oj ot w'.
Proof.
  destruct ev as [uuid now request | j0 now | j0 | j0 | q]; simpl; try done;
    intros [= <-].
  - unfold post_upload. destruct request as [|[|[|c s]|f]];
      try (exists None, None; intros w' _ _; simpl; by destruct w').
    destruct (_ && _); [exists None, None; intros w' _ _; simpl; by destruct w'|].
    destruct (_ <? _); [exists None, None; intros w' _ _; simpl; by destruct w'|].
    eexists (Some _), (Some _). intros w' _ _.
    unfold createMockJob, simulateJobProgress. simpl. rewrite lookup_insert_eq. done.
  - unfold fire_timeout.
    destruct (timers w !! j0) as [sim|] eqn:Hsim;
      [|exists None, None; intros w' _ ->; by destruct w'].
    destruct (timeout_pending sim) eqn:Htp;
      [|exists None, None; intros w' _ ->; rewrite Htp; by destruct w'].
    unfold processStep.
    destruct (MOCK_JOBS w !! j0) as [job|] eqn:Hjob.
    + destruct (currentStep (clearInterval sim) <? length steps)%nat eqn:Hlt;
        eexists (Some _), (Some _); intros w' -> ->; rewrite Htp, Hlt; reflexivity.
    + eexists None, (Some _). intros w' -> ->. rewrite Htp. reflexivity.
  - unfold fire_tick.
    destruct (timers w !! j0) as [sim|] eqn:Hsim;
      [|exists None, None; intros w' _ ->; by destruct w'].
    destruct (progressInterval sim) as [iv|] eqn:Hiv;
      [|exists None, None; intros w' _ ->; rewrite Hiv; by destruct w'].
    destruct (MOCK_JOBS w !! j0) as [job|] eqn:Hjob.
    + eexists (Some _), (Some _). intros w' -> ->. rewrite Hiv. reflexivity.
    + eexists None, (Some _). intros w' -> ->. rewrite Hiv. reflexivity.
Qed.

(** X22. Events of different jobs commute: whether a timer of one job fires
    before or after a timer of another job, or before or after the upload that
    creates another job, the resulting state is the same. *)
Theorem events_of_different_jobs_commute ev1 ev2 j1 j2 w :
  event_job ev1 = Some j1 -> event_job ev2 = Some j2 -> j1 <> j2 ->
  apply_event ev1 (apply_event ev2 w) = apply_event ev2 (apply_event ev1 w).
Proof.
  intros H1 H2 Hne.
  destruct (event_local ev1 j1 w H1) as (oj1 & ot1 & Hl1).
  destruct (event_local ev2 j2 w H2) as (oj2 & ot2 & Hl2).
  rewrite (Hl2 w eq_refl eq_refl), (Hl1 w eq_refl eq_refl).
  destruct (put_lookup j1 j2 oj2 ot2 w Hne) as [Hj Ht].
  destruct (put_lookup j2 j1 oj1 ot1 w (not_eq_sym Hne)) as [Hj' Ht'].
  rewrite (Hl1 _ Hj Ht), (Hl2 _ Hj' Ht'). by apply put_commute.
Qed.

Lemma acceptableb_spec request : acceptableb request = true <-> acceptable request.
Proof.
  unfold acceptable. destruct request as [|[|s|f]]; simpl.
  1-3: split; [done | intros (f & Hf & _); discriminate Hf].
  rewrite andb_true_iff, orb_true_iff, Z.leb_le. split.
  - intros [Hn Hs]. exists f. by repeat split.
  - intros (f' & [= <-] & Hn & Hs). by split.
Qed.

Lemma post_upload_accepted uuid now request w :
  snd (post_upload uuid now request w) =
  if acceptableb request
  then match request with
       | FormData (entry_file f) =>
           snd (createMockJob uuid now (file_name f) (size f) w)
       | _ => w
       end
  else w.
Proof.
  unfold post_upload, acceptableb. destruct request as [|[|[|c s]|f]]; try done.
  destruct (endsWith (file_name f) ".xlsx"), (endsWith (file_name f) ".xls"); simpl;
    try done; change (10 * 1024 * 1024) with 10485760;
    destruct (Z.ltb_spec 10485760 (size f)), (Z.leb_spec (size f) 10485760);
    try lia; try done; by destruct (createMockJob _ _ _ _ _).
Qed.

(** X23. No job is lost and none is duplicated: along every run the store
    grows by exactly one job for each upload the endpoint accepts and is left
    with as many jobs by every other event, so a state reached from module load
    holds the three sample jobs plus one job per accepted upload. *)
Theorem store_size w evs w' :
  reachable w -> run w evs w' ->
  base.size (MOCK_JOBS w') = (base.size (MOCK_JOBS w) + accepted_uploads evs)%nat /\
  (forall o now, w = module_load o now ->
     base.size (MOCK_JOBS w') = (3 + accepted_uploads evs)%nat).
Proof.
  intros Hreach Hrun.
  assert (Hsize : base.size (MOCK_JOBS w') = (base.size (MOCK_JOBS w) + accepted_uploads evs)%nat).
  { pose proof (reachable_inv w Hreach) as Hinv. clear Hreach.
    induction Hrun as [w | w ev w1 evs w2 Hstep Hrun IH]; [simpl; lia|].
    destruct (step_inv w ev w1 Hinv Hstep) as [Hinv1 _].
    rewrite (IH Hinv1). clear IH Hrun.
    destruct Hstep as [w ev Hen].
    destruct ev as [uuid now request | j0 now | j0 | j0 | q]; simpl in *; try lia.
    - rewrite post_upload_accepted.
      destruct (acceptableb request) eqn:Hacc; [|lia].
      destruct request as [|[|s|f]]; try done.
      unfold createMockJob, simulateJobProgress. simpl. rewrite lookup_insert_eq. simpl.
      rewrite map_size_insert_None by done. lia.
    - destruct Hen as (sim & Hsim & Htp).
      destruct (inv_sims w Hinv j0 sim Hsim) as (job & Hjob & _).
      unfold fire_timeout, processStep. rewrite Hsim, Htp, Hjob.
      destruct (_ <? _)%nat; simpl; rewrite map_size_insert_Some by done; lia.
    - destruct Hen as (sim & Hsim & [iv Hiv]).
      destruct (inv_sims w Hinv j0 sim Hsim) as (job & Hjob & _).
      unfold fire_tick. rewrite Hsim, Hiv, Hjob. simpl.
      rewrite map_size_insert_Some by done. lia. }
  split; [done|]. intros o now ->. rewrite Hsize. f_equal.
Qed.

End Independence.

(** ** Completion of a job *)

Section Completion.
Context `{JsRuntime}.

(** From any point of its simulation a job reaches the final branch of
    [processStep] by firing its pending timeouts, one per remaining step. *)
Lemma finish_within w j sim :
  world_inv w -> timers w !! j = Some sim ->
  exists evs w', run w evs w' /\ finished w' j /\
    (length evs <= 6 - currentStep sim)%nat /\
    Forall (fun ev => exists now, ev = EvTimeout j now) evs.
Proof.
  remember (6 - currentStep sim)%nat as n eqn:Hn.
  revert w sim Hn. induction n as [|n IH]; intros w sim Hn Hinv Hsim.
  - destruct (timeout_pending sim) eqn:Htp.
    + destruct (inv_sims w Hinv j sim Hsim) as (job & _ & Hs).
      unfold sim_inv in Hs. rewrite Htp in Hs.
      destruct (progressInterval sim);
        [destruct Hs as (_ & Hcs & _) | destruct Hs as [Hcs _]]; lia.
    + exists [], w. repeat split; [constructor | by exists sim | done | constructor].
  - destruct (timeout_pending sim) eqn:Htp;
      [|exists [], w; repeat split;
        [constructor | by exists sim | simpl; lia | constructor]].
    destruct (inv_sims w Hinv j sim Hsim) as (job & Hjob & Hs).
    destruct (fire_timeout_timer w 0 j sim job Hsim Htp Hjob) as (sim' & Hsim' & Hnext).
    assert (Hstep : step w (EvTimeout j 0) (fire_timeout 0 j w)).
    { apply (step_event w (EvTimeout j 0)). by exists sim. }
    destruct (step_inv w _ _ Hinv Hstep) as [Hinv' _].
    destruct (currentStep sim <? 5)%nat eqn:Hlt.
    + destruct Hnext as [Hcs' Htp']. apply Nat.ltb_lt in Hlt.
      destruct (IH (fire_timeout 0 j w) sim' ltac:(lia) Hinv' Hsim')
        as (evs & w' & Hrun & Hfin & Hlen & Hall).
      exists (EvTimeout j 0 :: evs), w'.
      repeat split; [by econstructor | done | simpl; lia |].
      constructor; [by exists 0 | done].
    + exists [EvTimeout j 0], (fire_timeout 0 j w).
      repeat split; [econstructor; [exact Hstep | constructor] | by exists sim'
                    | simpl; lia |].
      constructor; [by exists 0 | constructor].
Qed.

(** X24. No job gets stuck: from every reachable state, a job that has been
    uploaded (it has a simulation) is brought to completion by at most six
    firings of its own timeouts, after which its status snapshot is
    [completed], with the step label [completed], all rows processed and the
    sample errors attached. *)
Theorem job_can_complete w j :
  reachable w -> is_Some (timers w !! j) ->
  exists evs w' s,
    run w evs w' /\ (length evs <= 6)%nat /\
    Forall (fun ev => exists now, ev = EvTimeout j now) evs /\
    getMockJobStatus w' j = Some s /\
    r_status s = completed /\ r_current_step s = "completed" /\
    r_processed_rows s = r_total_rows s /\ r_errors s = MOCK_JOB_ERRORS /\
    r_completed_at s <> None.
Proof.
  intros Hreach [sim Hsim].
  destruct (finish_within w j sim (reachable_inv w Hreach) Hsim)
    as (evs & w' & Hrun & (sim' & Hsim' & Htp') & Hlen & Hall).
  pose proof (reachable_run w evs w' Hreach Hrun) as Hreach'.
  pose proof (reachable_inv w' Hreach') as Hinv'.
  destruct (inv_sims w' Hinv' j sim' Hsim') as (job & Hjob & Hs).
  unfold sim_inv in Hs. rewrite Htp' in Hs. destruct Hs as [_ Hst].
  destruct (inv_jobs w' Hinv' j job Hjob) as (_ & Hc & _).
  destruct (reachable_facts w' j job Hreach' Hjob) as (_ & Hcs & _ & _ & Hca & _).
  exists evs, w'. unfold getMockJobStatus. rewrite Hjob. eexists.
  split; [done|]. split; [lia|]. split; [done|]. split; [done|]. simpl.
  split; [done|]. split; [by apply Hcs|]. split; [by rewrite (Hc Hst)|].
  split; [by rewrite decide_True|].
  intros Hnone. apply Hca in Hnone as [Hp | Hp]; congruence.
Qed.

End Completion.

(** ** The generated table *)

Lemma random_salary (r : Q) :
  (0 <= r)%Q -> (r < 1)%Q -> 0 <= Qfloor (r * 65000) <= 64999.
Proof.
  intros H0 H1. split.
  - change 0 with (Qfloor 0). apply Qfloor_resp_le.
    apply Qmult_le_0_compat; [done | done].
  - assert (Hlt : (inject_Z (Qfloor (r * 65000)) < inject_Z 65000)%Q).
    { apply Qle_lt_trans with (r * 65000)%Q; [apply Qfloor_le|].
      change (inject_Z 65000) with (1 * 65000)%Q.
      apply Qmult_lt_compat_r; [reflexivity | done]. }
    rewrite <- Zlt_Qlt in Hlt. lia.
Qed.

Lemma count_by_department (l : list Employee) :
  Forall (fun e => In (department_name e) department_names) l ->
  fold_right Z.add 0
    (map (fun d => Z.of_nat (length (List.filter
            (fun emp => String.eqb (department_name emp) d) l)))
         department_names)
  = Z.of_nat (length l).
Proof.
  induction 1 as [|e l He Hall IH]; [done|].
  cbn [department_names DEPARTMENTS map snd fold_right] in *.
  cbn [List.filter].
  destruct He as [<- | [<- | [<- | [<- | [<- | [<- | []]]]]]];
    cbn [String.eqb Ascii.eqb Bool.eqb andb]; cbn [length]; lia.
Qed.

Section TableFacts.
Context `{JsRuntime}.

(** X25. For draws of [Math.random] in [0, 1), every generated salary is a
    whole number from 35000 to 99999, and its converted value is a whole
    number from 32200 to 91999 that is below the salary. *)
Theorem generated_salary_range o count i e :
  generateEmployees o count !! i = Some e ->
  (0 <= gen_random o i)%Q -> (gen_random o i < 1)%Q ->
  35000 <= salary e <= 99999 /\
  32200 <= annual_salary_eur e <= 91999 /\
  annual_salary_eur e < salary e.
Proof.
  intros [_ ->]%generateEmployees_lookup H0 H1.
  unfold employee_at. cbv zeta. cbn [salary annual_salary_eur].
  pose proof (random_salary _ H0 H1) as Hr.
  pose proof (Math_round_nearest (35000 + Qfloor (gen_random o i * 65000))) as Hn.
  set (n := Qfloor (gen_random o i * 65000)) in *.
  set (a := Qfloor (inject_Z (35000 + n) * (92 # 100) + (1 # 2))) in *.
  lia.
Qed.

Lemma generated_departments o n :
  Forall (fun e => In (department_name e) department_names) (generateEmployees o n).
Proof.
  apply List.Forall_forall. intros e [i [<- _]]%in_map_iff.
  unfold employee_at. cbv zeta. cbn [department_name].
  assert (Hlt : (i mod length deptCodes < 6)%nat) by (apply Nat.mod_upper_bound; done).
  destruct (i mod length deptCodes)%nat as [|[|[|[|[|[|k]]]]]];
    first [lia | simpl; auto 10].
Qed.

Lemma reachable_employees w :
  reachable w -> exists o, MOCK_EMPLOYEES w = generateEmployees o 500.
Proof.
  intros (o & now & evs & Hrun). exists o. by rewrite (run_employees _ _ _ Hrun).
Qed.

Lemma filterEmployees_total w params :
  total (filterEmployees w params) =
  Z.of_nat (length
    (let searched :=
       if truthy (search params)
       then List.filter (search_matches (toLowerCase (default "" (search params))))
              (MOCK_EMPLOYEES w)
       else MOCK_EMPLOYEES w in
     if truthy (department params)
     then List.filter
            (fun emp => String.eqb (department_name emp) (default "" (department params)))
            searched
     else searched)).
Proof.
  unfold filterEmployees. cbv zeta. cbn [total].
  by rewrite (Permutation_length (Array_sort_Permutation _ _)).
Qed.

(** X26. The six department filters partition the listing: whatever the
    search text, the totals the listing reports for the six department names
    add up to the total it reports without a department filter. *)
Theorem departments_partition w p s sb ord text :
  reachable w ->
  fold_right Z.add 0
    (map (fun d => total (filterEmployees w
            {| page := p; page_size := s; sort_by := sb; order := ord;
               search := text; department := Some d |}))
         department_names)
  = total (filterEmployees w
            {| page := p; page_size := s; sort_by := sb; order := ord;
               search := text; department := None |}).
Proof.
  intros [o Ho]%reachable_employees.
  rewrite filterEmployees_total. cbv zeta. cbn [search department truthy].
  set (searched := if truthy text then _ else _).
  rewrite <- (count_by_department searched).
  - apply (f_equal (fold_right Z.add 0)).
    cbn [department_names DEPARTMENTS map snd].
    rewrite !filterEmployees_total. cbv zeta.
    cbn [search department truthy default from_option Datatypes.id String.eqb negb].
    reflexivity.
  - unfold searched. rewrite Ho.
    destruct (truthy text); [|apply generated_departments].
    apply List.Forall_forall. intros e [He _]%filter_In.
    revert e He. apply List.Forall_forall. apply generated_departments.
Qed.

End TableFacts.

(** ** Search by identifier *)

Lemma filter_map_seq_one {A} (f : A -> bool) (g : nat -> A) i a n :
  (forall j, (a <= j < a + n)%nat -> f (g j) = true <-> j = i) ->
  List.filter f (map g (seq a n)) =
  if bool_decide (a <= i < a + n)%nat then [g i] else [].
Proof.
  revert a. induction n as [|n IH]; intros a Hf.
  - simpl. rewrite bool_decide_eq_false_2; [done | lia].
  - cbn [seq map List.filter]. rewrite IH by (intros j Hj; apply Hf; lia).
    destruct (f (g a)) eqn:Hfa.
    + assert (a = i) as <- by (apply Hf; [lia | done]).
      rewrite bool_decide_eq_false_2 by lia.
      rewrite bool_decide_eq_true_2 by lia. done.
    + assert (a <> i) as Hne.
      { intros <-. assert (f (g a) = true) by (apply Hf; [lia | done]). congruence. }
      destruct (decide (S a <= i < S a + n)%nat) as [Hin | Hout].
      * rewrite !bool_decide_eq_true_2 by lia. done.
      * rewrite !bool_decide_eq_false_2 by lia. done.
Qed.

Lemma In_combine_map {A B} (f : A -> B) x (l : list A) :
  In x l -> In (x, f x) (combine l (map f l)).
Proof.
  induction l as [|y l IH]; simpl; [done|].
  intros [-> | Hin]; [by left | right; by apply IH].
Qed.

(** Among the identifiers and names of the 500 generated records, the
    lower-cased identifier of one record occurs in no name and in no other
    identifier. *)
Lemma identifier_occurs_once i j :
  (i < 500)%nat -> (j < 500)%nat ->
  includes (ascii_toLowerCase (nth (j mod length names) names ""))
           (ascii_toLowerCase ("E" ++ padStart (String_of_nat (i + 1)) 4 "0")) ||
  includes (ascii_toLowerCase ("E" ++ padStart (String_of_nat (j + 1)) 4 "0"))
           (ascii_toLowerCase ("E" ++ padStart (String_of_nat (i + 1)) 4 "0")) = true
  <-> j = i.
Proof.
  intros Hi Hj.
  set (key := fun i : nat => ascii_toLowerCase ("E" ++ padStart (String_of_nat (i + 1)) 4 "0")).
  set (texts := fun j : nat => (ascii_toLowerCase (nth (j mod length names) names ""), key j)).
  assert (Hall :
    let ts := combine (seq 0 500) (map texts (seq 0 500)) in
    forallb (fun '(i, sub) => forallb (fun '(j, (a, b)) =>
      Bool.eqb (includes a sub || includes b sub) (j =? i)%nat) ts)
      (combine (seq 0 500) (map key (seq 0 500))) = true)
    by (vm_compute; reflexivity).
  cbv zeta in Hall. rewrite forallb_forall in Hall.
  assert (Hini : In i (seq 0 500)) by (apply in_seq; lia).
  assert (Hinj : In j (seq 0 500)) by (apply in_seq; lia).
  specialize (Hall (i, key i) (In_combine_map key i _ Hini)).
  cbv beta iota in Hall. rewrite forallb_forall in Hall.
  specialize (Hall (j, texts j) (In_combine_map texts j _ Hinj)).
  unfold texts in Hall. cbv beta iota in Hall.
  apply Bool.eqb_prop in Hall. fold (key i) (key j). rewrite Hall. apply Nat.eqb_eq.
Qed.

(** The names and the identifiers of the generated records are ASCII text. *)
Lemma generated_texts_ascii i :
  (i < 500)%nat ->
  ascii_text (nth (i mod length names) names "") = true /\
  ascii_text ("E" ++ padStart (String_of_nat (i + 1)) 4 "0") = true.
Proof.
  intros Hi.
  assert (Hall :
    forallb (fun i => ascii_text (nth (i mod length names) names "") &&
                      ascii_text ("E" ++ padStart (String_of_nat (i + 1)) 4 "0"))
            (seq 0 500) = true) by (vm_compute; reflexivity).
  rewrite forallb_forall in Hall.
  specialize (Hall i ltac:(apply in_seq; lia)). by apply andb_true_iff in Hall.
Qed.

Section SearchFacts.
Context `{JsRuntime} `{!CaseLaws}.

(** X27. In every reachable state, a search for the full identifier of a
    stored employee, in any letter case, returns exactly that employee: one
    record, on one page.  The host's [toLowerCase] lowers ASCII text letter by
    letter. *)
Theorem search_by_identifier w e text sb ord :
  reachable w -> In e (MOCK_EMPLOYEES w) ->
  toLowerCase text = toLowerCase (employee_id e) ->
  filterEmployees w
    {| page := None; page_size := None; sort_by := sb; order := ord;
       search := Some text; department := None |}
  = {| employees := [e]; total := 1; out_page := 1; out_page_size := 20;
       total_pages := Finite 1 |}.
Proof.
  intros (o & now & evs & Hrun) He Htext.
  rewrite (run_employees _ _ _ Hrun) in He. cbn [module_load MOCK_EMPLOYEES] in He.
  apply in_map_iff in He as (i & <- & [_ Hi]%in_seq).
  destruct (generated_texts_ascii i Hi) as [_ Hid].
  rewrite (toLowerCase_ascii (employee_id (employee_at o i)) Hid) in Htext.
  assert (Htruthy : truthy (Some text) = true).
  { destruct text; [|done].
    rewrite (toLowerCase_ascii "" eq_refl) in Htext. discriminate Htext. }
  unfold filterEmployees. cbv zeta.
  cbn [page page_size sort_by order search department default from_option Datatypes.id].
  rewrite Htruthy. cbn [truthy]. rewrite (run_employees _ _ _ Hrun).
  cbn [module_load MOCK_EMPLOYEES]. unfold generateEmployees. rewrite Htext.
  rewrite (filter_map_seq_one _ _ i).
  - rewrite bool_decide_eq_true_2 by lia. reflexivity.
  - intros j Hj. destruct (generated_texts_ascii j ltac:(lia)) as [Hn Hd].
    unfold search_matches, employee_at. cbv zeta. cbn [name employee_id].
    rewrite (toLowerCase_ascii _ Hn), (toLowerCase_ascii _ Hd).
    apply identifier_occurs_once; lia.
Qed.

End SearchFacts.

(** ** Step labels and row counts *)

Lemma step_name_inj st k :
  In st steps -> (k < 5)%nat ->
  step_name st = step_name (nth k steps default_step) ->
  st = nth k steps default_step.
Proof.
  intros Hin Hk.
  do 5 (destruct k as [|k]; [simpl in *; intros Hn;
    repeat (destruct Hin as [<- | Hin]; [done || discriminate Hn|]); done|]).
  lia.
Qed.

Lemma rows_increase k :
  rows (nth k steps default_step) <= rows (nth (S k) steps default_step) \/ (4 <= k)%nat.
Proof. do 4 (destruct k as [|k]; [left; simpl; lia|]). right. lia. Qed.

Section LabelFacts.
Context `{JsRuntime}.

Lemma module_load_labels o now : label_inv (module_load o now).
Proof.
  split.
  - intros j job Hj. simpl in Hj. unfold initializeSampleJobs in Hj.
    repeat (apply lookup_insert_Some in Hj as [[<- <-] | [_ Hj]];
            [intros st Hin Hn; simpl in *;
             repeat (destruct Hin as [<- | Hin]; [(discriminate Hn || (simpl; lia))|]);
             done|]).
    by rewrite lookup_empty in Hj.
  - intros j sim job Hsim. simpl in Hsim. by rewrite lookup_empty in Hsim.
Qed.

Lemma new_job_label uuid now filename0 fileSize :
  label_bound (new_job uuid now filename0 fileSize).
Proof.
  intros st Hin Hn. simpl in *.
  repeat (destruct Hin as [<- | Hin]; [(discriminate Hn || (simpl; lia))|]). done.
Qed.

Lemma step_labels w ev w' :
  world_inv w -> label_inv w -> step w ev w' -> label_inv w'.
Proof.
  intros Hinv Hlab Hstep. destruct Hstep as [w ev Hen].
  destruct ev as [uuid now request | j0 now | j0 | j0 | q]; simpl in *; try done.
  - destruct (post_upload_world uuid now request w) as [-> | (f & _ & ->)]; [done|].
    unfold createMockJob, simulateJobProgress. simpl. rewrite lookup_insert_eq. simpl.
    split; simpl.
    + intros j job [[<- <-] | [Hne Hj]]%lookup_insert_Some;
        [apply new_job_label | by apply (labels_jobs w Hlab j)].
    + intros j sim job [[<- <-] | [Hne Hsim]]%lookup_insert_Some.
      * intros _ _ [x Hx]. discriminate Hx.
      * rewrite lookup_insert_ne by done. by apply (labels_sims w Hlab j).
  - destruct Hen as (sim & Hsim & Htp).
    destruct (inv_sims w Hinv j0 sim Hsim) as (job & Hjob & Hs).
    pose proof (labels_jobs w Hlab j0 job Hjob) as Hb.
    unfold fire_timeout, processStep. rewrite Hsim, Htp, Hjob.
    cbn [clearInterval currentStep length steps].
    unfold sim_inv in Hs. rewrite Htp in Hs.
    destruct (Nat.ltb_spec (currentStep sim) 5) as [Hlt | Hge].
    + assert (Hrows : processed_rows job <= rows (nth (currentStep sim) steps default_step)).
      { destruct (progressInterval sim) as [iv|].
        - destruct Hs as (_ & Hcs & Hend & _ & Hlo & Hhi).
          assert (Hle : processed_rows job <= rows (nth (currentStep sim - 1) steps default_step)).
          { rewrite Zle_Qle, <- Hend. by apply Qle_trans with (currentRows iv). }
          destruct (rows_increase (currentStep sim - 1)) as [Hinc | Hbig]; [|lia].
          replace (S (currentStep sim - 1)) with (currentStep sim) in Hinc by lia. lia.
        - destruct Hs as (-> & _ & ->). simpl. lia. }
      split; cbn [MOCK_JOBS timers].
      * intros j job' [[<- <-] | [Hne Hj]]%lookup_insert_Some;
          [|by apply (labels_jobs w Hlab j)].
        intros st Hin Hn. cbn [with_current_step current_step processed_rows] in *.
        symmetry in Hn. apply step_name_inj in Hn; [|done|done]. subst st.
        by destruct (currentStep sim =? 0)%nat.
      * intros j sim' job' [[<- <-] | [Hne Hsim']]%lookup_insert_Some.
        -- rewrite lookup_insert_eq. intros [= <-] _ _.
           cbn [with_current_step current_step currentStep].
           by replace (S (currentStep sim) - 1)%nat with (currentStep sim) by lia.
        -- rewrite lookup_insert_ne by done. by apply (labels_sims w Hlab j).
    + split; cbn [MOCK_JOBS timers].
      * intros j job' [[<- <-] | [Hne Hj]]%lookup_insert_Some;
          [|by apply (labels_jobs w Hlab j)].
        intros st Hin Hn. simpl in Hn, Hin.
        repeat (destruct Hin as [<- | Hin]; [discriminate Hn|]). done.
      * intros j sim' job' [[<- <-] | [Hne Hsim']]%lookup_insert_Some.
        -- intros _ Hx. discriminate Hx.
        -- rewrite lookup_insert_ne by done. by apply (labels_sims w Hlab j).
  - destruct Hen as (sim & Hsim & [iv Hiv]).
    destruct (inv_sims w Hinv j0 sim Hsim) as (job & Hjob & Hs).
    pose proof (labels_sims w Hlab j0 sim job Hsim Hjob) as Hl.
    unfold fire_tick. rewrite Hsim, Hiv, Hjob.
    unfold sim_inv in Hs. rewrite Hiv in Hs.
    destruct (timeout_pending sim) eqn:Htp; [|by destruct Hs].
    destruct Hs as (_ & Hcs & Hend & _ & _ & _).
    specialize (Hl Htp ltac:(by rewrite Hiv)).
    split; cbn [MOCK_JOBS timers].
    + intros j job' [[<- <-] | [Hne Hj]]%lookup_insert_Some;
        [|by apply (labels_jobs w Hlab j)].
      intros st Hin Hn. cbn [with_processed_rows current_step processed_rows] in *.
      rewrite Hl in Hn. symmetry in Hn. apply step_name_inj in Hn; [|done|lia]. subst st.
      rewrite <- (Qfloor_Z (rows _)). apply Qfloor_resp_le.
      rewrite <- Hend. apply Q.le_min_r.
    + intros j sim' job' [[<- <-] | [Hne Hsim']]%lookup_insert_Some.
      * rewrite lookup_insert_eq. intros [= <-] _ _.
        cbn [with_processed_rows current_step currentStep]. done.
      * rewrite lookup_insert_ne by done. by apply (labels_sims w Hlab j).
Qed.

Lemma run_labels w evs w' :
  world_inv w -> label_inv w -> run w evs w' -> label_inv w'.
Proof.
  intros Hinv Hlab Hrun. induction Hrun as [w | w ev w1 evs w2 Hstep Hrun IH]; [done|].
  destruct (step_inv w ev w1 Hinv Hstep) as [Hinv1 _].
  apply (IH Hinv1). by apply (step_labels w ev).
Qed.

(** X28. The step label bounds the row count: in every reachable state, a
    status snapshot whose [current_step] names a step of the simulation
    reports at most the row target of that step (0 for pending, 100 for
    reading, 300 for validating, 450 for transforming, 500 for persisting). *)
Theorem step_label_bounds_rows w j s st :
  reachable w -> getMockJobStatus w j = Some s ->
  In st steps -> r_current_step s = step_name st ->
  r_processed_rows s <= rows st.
Proof.
  intros (o & now & evs & Hrun) Hs Hin Hn.
  pose proof (run_labels _ evs w (module_load_inv o now) (module_load_labels o now) Hrun)
    as Hlab.
  unfold getMockJobStatus in Hs.
  destruct (MOCK_JOBS w !! j) as [job|] eqn:Hjob; [|done].
  injection Hs as <-. simpl in *. by apply (labels_jobs w Hlab j job Hjob st).
Qed.

End LabelFacts.

(** * Examples *)

Lemma snapshot_identifier_witness :
  getMockJobStatus (exec sample_start sample_world) "job-1" = Some sample_snapshot /\
  r_job_id sample_snapshot = "job-1".
Proof.
  assert (Hs : getMockJobStatus (exec sample_start sample_world) "job-1"
               = Some sample_snapshot) by (vm_compute; reflexivity).
  split; [exact Hs|].
  apply (snapshot_identifier (exec sample_start sample_world) "job-1" sample_snapshot).
  - apply schedulable_reachable. vm_compute. reflexivity.
  - exact Hs.
Defined.

Lemma processed_rows_total_iff_completed_witness :
  (r_processed_rows sample_snapshot = r_total_rows sample_snapshot
   <-> r_status sample_snapshot = completed) /\
  (r_status sample_snapshot <> completed -> r_processed_rows sample_snapshot <= 500).
Proof.
  apply (processed_rows_total_iff_completed
           (exec sample_start sample_world) "job-1" sample_snapshot).
  - apply schedulable_reachable. vm_compute. reflexivity.
  - vm_compute. reflexivity.
Defined.

Lemma snapshot_labels_witness :
  r_completed_at sample_snapshot = None <->
  r_status sample_snapshot = pending \/ r_status sample_snapshot = processing.
Proof.
  apply (snapshot_labels (exec sample_start sample_world) "job-1" sample_snapshot).
  - apply schedulable_reachable. vm_compute. reflexivity.
  - vm_compute. reflexivity.
Defined.

Lemma job_identity_stable_witness :
  let w := exec sample_start sample_world in
  MOCK_JOBS w !! "job-1" = Some sample_job /\
  exists job', MOCK_JOBS (exec sample_progress w) !! "job-1" = Some job' /\
    same_identity sample_job job'.
Proof.
  intros w.
  assert (Hj : MOCK_JOBS w !! "job-1" = Some sample_job) by (vm_compute; reflexivity).
  assert (Hs : schedulable sample_progress w = true) by (vm_compute; reflexivity).
  split; [exact Hj|].
  apply (job_identity_stable w sample_progress (exec sample_progress w) "job-1" sample_job).
  - apply schedulable_reachable. vm_compute. reflexivity.
  - exact (schedulable_run _ w Hs).
  - exact Hj.
Defined.

Lemma polling_stops_on_final_snapshot_witness :
  exists s,
    getMockJobStatus (exec sample_complete sample_world) "job-1" = Some s /\
    r_status s = completed /\
    (refetchInterval 2000 (Some s) = None <-> terminal (r_status s)).
Proof.
  assert (Hs : exists s,
    getMockJobStatus (exec sample_complete sample_world) "job-1" = Some s /\
    r_status s = completed) by (eexists; split; vm_compute; reflexivity).
  destruct Hs as (s & Hs & Hst). exists s. split; [exact Hs|]. split; [exact Hst|].
  apply (polling_stops_on_final_snapshot 2000
           (exec sample_complete sample_world) "job-1" s).
  - apply schedulable_reachable. vm_compute. reflexivity.
  - exact Hs.
Defined.

Lemma event_isolation_witness :
  let w := exec sample_start sample_world in
  MOCK_JOBS (apply_event (EvTick "job-1") w) !! "demo-completed-job-001" =
  MOCK_JOBS w !! "demo-completed-job-001" /\
  timers (apply_event (EvTick "job-1") w) !! "demo-completed-job-001" =
  timers w !! "demo-completed-job-001".
Proof.
  intros w. apply (event_isolation (EvTick "job-1") w "demo-completed-job-001").
  simpl. discriminate.
Defined.

Lemma progress_of_snapshot_witness :
  let progress :=
    calculateProgress (Some (r_processed_rows sample_snapshot))
                      (Some (r_total_rows sample_snapshot)) in
  (0 <= progress)%Q /\ (progress <= 100)%Q /\
  ((progress == 100)%Q <-> r_status sample_snapshot = completed) /\
  ((progress == 0)%Q <-> r_processed_rows sample_snapshot = 0).
Proof.
  apply (progress_of_snapshot (exec sample_start sample_world) "job-1" sample_snapshot).
  - apply schedulable_reachable. vm_compute. reflexivity.
  - vm_compute. reflexivity.
Defined.

Lemma timeline_of_snapshot_witness :
  exists i : nat,
    (i < 5)%nat /\
    fst <$> PROCESSING_STEPS !! i = Some (r_current_step sample_snapshot) /\
    timeline (r_status sample_snapshot) (r_current_step sample_snapshot) =
      (repeat step_completed i ++ step_current :: repeat step_pending (5 - i))%list.
Proof.
  destruct (timeline_of_snapshot (exec sample_start sample_world) "job-1" sample_snapshot)
    as [Hlive _].
  - apply schedulable_reachable. vm_compute. reflexivity.
  - vm_compute. reflexivity.
  - apply Hlive. right. reflexivity.
Defined.

Lemma mutation_retry_implies_query_retry_witness :
  shouldRetryMutation 0 sample_network_error = true /\
  shouldRetry 0 sample_network_error = true.
Proof.
  assert (Hm : shouldRetryMutation 0 sample_network_error = true) by reflexivity.
  split; [exact Hm|].
  apply (mutation_retry_implies_query_retry 0 sample_network_error Hm).
Defined.

Lemma client_and_endpoint_agree_witness :
  validateFile 10 sample_file = None <->
  http_status (fst (post_upload "job-1" sample_now
                      (FormData (entry_file (as_File sample_file))) sample_world)) = 200.
Proof.
  apply (client_and_endpoint_agree "job-1" sample_now sample_file sample_world).
  - simpl. left. reflexivity.
  - left. reflexivity.
Defined.

Lemma employee_pages_cover_witness :
  let listing p := filterEmployees sample_world {|
    page := Some (Z.of_nat p); page_size := Some (Z.of_nat 7);
    sort_by := Some "salary"; order := Some "desc";
    search := Some "KEVIN"; department := None |} in
  total_pages (listing 1%nat) = Finite 5 /\
  length (concat (map (fun p : nat => employees (listing p)) (seq 1 5))) = 30%nat /\
  map (fun p : nat => length (employees (listing p))) (seq 1 5) = [7; 7; 7; 7; 2]%nat /\
  concat (map (fun p : nat => employees (listing p)) (seq 1 5))
  = Array_sort (compareEmployees "salary" "desc")
      (List.filter (passes (Some "KEVIN") None) (MOCK_EMPLOYEES sample_world)).
Proof.
  intros listing.
  destruct (employee_pages_cover sample_world 7 (Some "salary") (Some "desc")
              (Some "KEVIN") None) as (n & Hn & _ & _ & Hconcat & _); [lia|].
  assert (Hpages : total_pages (listing 1%nat) = Finite 5) by (vm_compute; reflexivity).
  assert (n = 5%nat) as -> by (specialize (Hn 1%nat); fold (listing 1%nat) in Hn;
                                rewrite Hpages in Hn; injection Hn; lia).
  split; [exact Hpages|]. split; [vm_compute; reflexivity|].
  split; [vm_compute; reflexivity|]. exact Hconcat.
Defined.

Lemma jobs_list_agrees_with_status_witness :
  let values := map snd (map_to_list (MOCK_JOBS sample_world)) in
  let params := {| jobs_page := None; jobs_page_size := None;
                   jobs_status := Some "failed"; jobs_sort_by := None;
                   jobs_order := None |} in
  exists item s,
    In item (jobs (getJobsList values params)) /\
    getMockJobStatus sample_world (l_job_id item) = Some s /\
    l_status item = r_status s /\ l_processed_rows item = r_processed_rows s.
Proof.
  intros values params.
  assert (Hin : exists item, In item (jobs (getJobsList values params))).
  { eexists. vm_compute. left. reflexivity. }
  destruct Hin as (item & Hin).
  destruct (jobs_list_agrees_with_status sample_world values params item)
    as (s & Hs & _ & Hst & _ & _ & Hrows & _).
  - apply schedulable_reachable with (evs := []). vm_compute. reflexivity.
  - unfold enumerates. reflexivity.
  - exact Hin.
  - exists item, s. exact (conj Hin (conj Hs (conj Hst Hrows))).
Defined.

Lemma parseUrl_path_witness :
  exists r, parseUrl "/api/jobs?page=2&status=completed" = Some r /\
    url_path r = "/api/jobs" /\
    has_char "?" (url_path r) = false /\
    String.prefix (url_path r) "/api/jobs?page=2&status=completed" = true.
Proof.
  assert (Hr : exists r, parseUrl "/api/jobs?page=2&status=completed" = Some r /\
                 url_path r = "/api/jobs")
    by (eexists; split; vm_compute; reflexivity).
  destruct Hr as (r & Hr & Hp). exists r.
  destruct (parseUrl_path "/api/jobs?page=2&status=completed" r Hr) as (Hq & Hpre & _).
  exact (conj Hr (conj Hp (conj Hq Hpre))).
Defined.

Lemma parseUrl_round_trip_witness :
  parseUrl "/api/jobs?page=2&__proto__=x&status=completed&page=3" =
  Some {| url_path := "/api/jobs"; url_params := ∅;
          url_query :=
            <["page" := "3"]> (<["status" := "completed"]> (<["page" := "2"]> ∅)) |}.
Proof.
  apply (parseUrl_round_trip "/api/jobs"
           [("page", "2"); ("__proto__", "x"); ("status", "completed"); ("page", "3")]
           [("page", "2"); ("__proto__", "x"); ("status", "completed"); ("page", "3")]).
  - reflexivity.
  - repeat constructor; discriminate.
  - repeat constructor.
Defined.

Lemma events_of_different_jobs_commute_witness :
  let w := exec sample_start sample_world in
  apply_event (EvTick "job-1") (apply_event (sample_upload "job-2") w) =
  apply_event (sample_upload "job-2") (apply_event (EvTick "job-1") w).
Proof.
  intros w.
  apply (events_of_different_jobs_commute
           (EvTick "job-1") (sample_upload "job-2") "job-1" "job-2" w).
  - reflexivity.
  - reflexivity.
  - discriminate.
Defined.

Lemma store_size_witness :
  base.size (MOCK_JOBS (exec sample_start sample_world)) = 4%nat.
Proof.
  assert (Hs : schedulable sample_start sample_world = true) by (vm_compute; reflexivity).
  destruct (store_size sample_world sample_start (exec sample_start sample_world))
    as [_ Hload].
  - apply schedulable_reachable with (evs := []). vm_compute. reflexivity.
  - exact (schedulable_run _ sample_world Hs).
  - exact (Hload sample_oracle sample_now eq_refl).
Defined.

Lemma job_can_complete_witness :
  let w := exec sample_start sample_world in
  exists evs w' s,
    run w evs w' /\ (length evs <= 6)%nat /\
    getMockJobStatus w' "job-1" = Some s /\ r_status s = completed.
Proof.
  intros w.
  destruct (job_can_complete w "job-1")
    as (evs & w' & s & Hrun & Hlen & _ & Hs & Hst & _).
  - apply schedulable_reachable. vm_compute. reflexivity.
  - eexists. vm_compute. reflexivity.
  - exists evs, w', s. exact (conj Hrun (conj Hlen (conj Hs Hst))).
Defined.

Lemma generated_salary_range_witness :
  let e := employee_at sample_oracle 499 in
  salary e = 53571 /\
  35000 <= salary e <= 99999 /\
  32200 <= annual_salary_eur e <= 91999 /\
  annual_salary_eur e < salary e.
Proof.
  intros e. split; [vm_compute; reflexivity|].
  apply (generated_salary_range sample_oracle 500 499 e).
  - vm_compute. reflexivity.
  - vm_compute. discriminate.
  - vm_compute. reflexivity.
Defined.

Lemma departments_partition_witness :
  fold_right Z.add 0
    (map (fun d => total (filterEmployees sample_world
            {| page := None; page_size := None; sort_by := None; order := None;
               search := Some "an"; department := Some d |}))
         department_names)
  = total (filterEmployees sample_world
            {| page := None; page_size := None; sort_by := None; order := None;
               search := Some "an"; department := None |}).
Proof.
  apply (departments_partition sample_world None None None None (Some "an")).
  apply schedulable_reachable with (evs := []). vm_compute. reflexivity.
Defined.

Lemma search_by_identifier_witness :
  employees (filterEmployees sample_world
    {| page := None; page_size := None; sort_by := None; order := None;
       search := Some "e0500"; department := None |})
  = [employee_at sample_oracle 499].
Proof.
  rewrite (search_by_identifier sample_world (employee_at sample_oracle 499) "e0500"
             None None).
  - reflexivity.
  - apply schedulable_reachable with (evs := []). vm_compute. reflexivity.
  - change (In (employee_at sample_oracle 499)
              (map (employee_at sample_oracle) (seq 0 500))).
    apply in_map. apply in_seq. lia.
  - vm_compute. reflexivity.
Defined.

Lemma step_label_bounds_rows_witness :
  r_processed_rows sample_snapshot <= 100.
Proof.
  apply (step_label_bounds_rows (exec sample_start sample_world) "job-1" sample_snapshot
           {| step_name := "reading"; duration := 2000; rows := 100 |}).
  - apply schedulable_reachable. vm_compute. reflexivity.
  - vm_compute. reflexivity.
  - simpl. right. left. reflexivity.
  - reflexivity.
Defined.
